(** * Route visualiser: equirectangular projection and input validation

    A shallow embedding of

    - [er_projection.py]   : [equi_rect_project];
    - [pydantic_models.py] : [OrderInput], [ClusterConfig], [SolverConfig],
                             [RouteInput] and its validator [orders_unique];
    - [main.py], [visualise_deliveries.py] : [reformat], [reformat_locations],
                             [__add_lines], [create_graph].

    [matplotlib.pyplot] is the list of the calls made to it.  [plot_graph]
    and command-line handling are not modelled. *)

From Stdlib Require Import ZArith Reals Lra Floats.
From stdpp Require Import gmap strings list.

Set Warnings "-inexact-float,-clear-no-such-hyp".

(** ** Numbers

    The projection is written once, over an interface of the arithmetic it
    uses, and read in two number systems: IEEE 754 binary64, which is what
    NumPy computes with, and the real numbers, which is what the formula
    means when no operation rounds. *)

Class Arith (num : Type) := {
  (** the value of a Python [float] literal (or of an [int] that NumPy or
      pydantic converts to [float]), given by its binary64 value *)
  lit : float → num;
  mul : num → num → num;
  sub : num → num → num;
  (** [x <= y]; on binary64 every comparison with NaN is false *)
  leb : num → num → bool;
  (** [np.radians], [np.cos] on one number *)
  np_radians : num → num;
  np_cos : num → num;
}.

(** The floating-point errors of a multiplication, which the arithmetic
    unit records in its status flags: whether [x * y] overflows, and whether
    it is invalid. *)
Class FloatErrors (num : Type) := {
  mul_overflow : num → num → bool;
  mul_invalid : num → num → bool;
}.

Module Float64.

(** NumPy's [NPY_PI] and the factor [NPY_PI / 180.0] by which [np.radians]
    (its [npy_deg2rad]) multiplies. *)
Definition NPY_PI : float := 3.141592653589793%float.
Definition DEG2RAD : float := (NPY_PI / 180)%float.

Definition radians (x : float) : float := (x * DEG2RAD)%float.

Section WithCos.
(** [np.cos] on a binary64 is the platform's cosine; its last bit is not
    fixed by IEEE 754, so it stays a parameter. *)
Variable cos : float → float.

Definition arith : Arith float := {|
  lit := λ x, x;
  mul := PrimFloat.mul;
  sub := PrimFloat.sub;
  leb := PrimFloat.leb;
  np_radians := radians;
  np_cos := cos;
|}.
End WithCos.

(** A cosine for running the model on examples: correct to the last bit at
    the one point where the program calls it, constant elsewhere. *)
Definition cos_centre (_ : float) : float := 0.8484893540575187%float.

(** The three kinds of binary64 values. *)
Definition finite (x : float) : bool :=
  match Prim2SF x with
  | S754_zero _ | S754_finite _ _ _ => true
  | _ => false
  end.

Definition infinite (x : float) : bool :=
  match Prim2SF x with
  | S754_infinity _ => true
  | _ => false
  end.

Definition not_a_number (x : float) : bool :=
  match Prim2SF x with
  | S754_nan => true
  | _ => false
  end.

(** IEEE 754: the product of two finite numbers overflows when it is too
    large for a finite binary64, and is then an infinity; a product is
    invalid when it is not a number though both factors are numbers (zero
    times an infinity). *)
Definition fp_errors : FloatErrors float := {|
  mul_overflow := λ x y, finite x && finite y && infinite (x * y);
  mul_invalid := λ x y, negb (not_a_number x) && negb (not_a_number y)
                        && not_a_number (x * y);
|}.

End Float64.

Module Exact.

(** The real number a binary64 value stands for (0 for infinities and NaN,
    which no literal denotes). *)
Definition SF2R (x : spec_float) : R :=
  match x with
  | S754_finite s m e =>
      ((if s then -1 else 1) * IZR (Z.pos m) * powerRZ 2 e)%R
  | _ => 0%R
  end.

Definition float_to_R (x : float) : R := SF2R (Prim2SF x).

#[export] Instance Rle_decision (x y : R) : Decision (x <= y)%R := Rle_dec x y.

Definition arith : Arith R := {|
  lit := float_to_R;
  mul := Rmult;
  sub := Rminus;
  leb := λ x y, bool_decide (x <= y)%R;
  np_radians := λ x, (x * (PI / 180))%R;
  np_cos := cos;
|}.

(** No product of real numbers overflows or is invalid. *)
Definition fp_errors : FloatErrors R := {|
  mul_overflow := λ _ _, false;
  mul_invalid := λ _ _, false;
|}.

End Exact.

(** ** Results and exceptions *)

Inductive Result (E A : Type) :=
| Raise (e : E)
| Return (a : A).
Arguments Raise {E A} e.
Arguments Return {E A} a.

(** ** [pydantic_models.py] *)

Module Pydantic.

(** What a [pydantic.ValidationError] lists: where the error is (keys and
    list indices from the root of the input) and of which type. *)
Inductive LocItem :=
| Key (k : string)
| Index (i : nat).

Inductive ErrorType :=
| missing
| greater_than_equal
| less_than_equal
| value_error (msg : string).

Record ErrorDetails := mkError {
  err_loc : list LocItem;
  err_type : ErrorType;
}.

Definition Validated (A : Type) : Type := Result (list ErrorDetails) A.

Definition errors {A} (r : Validated A) : list ErrorDetails :=
  match r with
  | Raise es => es
  | Return _ => []
  end.

(** An error found below [item] is reported under [item]. *)
Definition under {A} (item : LocItem) (r : Validated A) : Validated A :=
  match r with
  | Raise es => Raise (map (λ e, mkError (item :: err_loc e) (err_type e)) es)
  | Return a => Return a
  end.

(** [Field(..., ge=, le=)]: the bounds a field declares. *)
Record Field (X : Type) := mkField {
  ge : option X;
  le : option X;
}.
Arguments mkField {X} ge le.
Arguments ge {X} _.
Arguments le {X} _.

(** [ge=bound] admits [x] when [bound <= x] and [le=bound] admits it when
    [x <= bound].  The upper bound is tested first, and the first bound that
    fails is the one reported.  On binary64 both comparisons are false at
    NaN, which is therefore refused, as a value above the upper bound where
    there is one. *)
Section Constraints.
Context {X : Type} (le_X : X → X → bool).

Definition below_ge (c : Field X) (x : X) : bool :=
  match ge c with
  | Some bound => negb (le_X bound x)
  | None => false
  end.

Definition above_le (c : Field X) (x : X) : bool :=
  match le c with
  | Some bound => negb (le_X x bound)
  | None => false
  end.

Definition constrained (c : Field X) (x : X) : Validated X :=
  if above_le c x then Raise [mkError [] less_than_equal]
  else if below_ge c x then Raise [mkError [] greater_than_equal]
  else Return x.
End Constraints.

(** A field of a model: every field of these models is required (none has
    a default), [inner] validates the value that is there. *)
Definition field {X Y} (name : string) (inner : X → Validated Y)
    (value : option X) : Validated Y :=
  match value with
  | None => Raise [mkError [Key name] missing]
  | Some x => under (Key name) (inner x)
  end.

(** [list[T]]: every item is validated, and every error is reported. *)
Fixpoint list_items {X Y} (inner : X → Validated Y) (i : nat) (l : list X)
    : Validated (list Y) :=
  match l with
  | [] => Return []
  | x :: l' =>
      let r := under (Index i) (inner x) in
      let rs := list_items inner (S i) l' in
      match r, rs with
      | Return y, Return ys => Return (y :: ys)
      | _, _ => Raise (errors r ++ errors rs)
      end
  end.

Definition str (s : string) : Validated string := Return s.

Section Models.
Context {num : Type} {AR : Arith num}.

(** *** [OrderInput]

    The input is taken after type coercion: an [int] where the model
    says [int], a [float] where it says [float], or nothing.  What pydantic
    does before that is not modelled: converting a value to the declared
    type (a numeric string, an [int] for a [float]), refusing one it
    cannot convert, and ignoring the keys a model does not declare. *)
Record RawOrder := mkRawOrder {
  raw_order_id : option Z;
  raw_lat : option num;
  raw_lon : option num;
}.

Record OrderInput := mkOrderInput {
  order_id : Z;
  lat : num;
  lon : num;
}.

Definition order_id_field : Field Z := mkField (Some 0%Z) None.
Definition lat_field : Field num :=
  mkField (Some (lit (-90)%float)) (Some (lit 90%float)).
Definition lon_field : Field num :=
  mkField (Some (lit (-180)%float)) (Some (lit 180%float)).

Definition OrderInput_validate (raw : RawOrder) : Validated OrderInput :=
  let v_order_id :=
    field "order_id" (constrained Z.leb order_id_field) (raw_order_id raw) in
  let v_lat := field "lat" (constrained leb lat_field) (raw_lat raw) in
  let v_lon := field "lon" (constrained leb lon_field) (raw_lon raw) in
  match v_order_id, v_lat, v_lon with
  | Return i, Return la, Return lo => Return (mkOrderInput i la lo)
  | _, _, _ => Raise (errors v_order_id ++ errors v_lat ++ errors v_lon)
  end.

(** *** [ClusterConfig]: [type] and, as [extra="allow"] says, whatever
    other keys the input has (each kept as its JSON text). *)
Record RawClusterConfig := mkRawClusterConfig {
  raw_cluster_type : option string;
  raw_cluster_extra : gmap string string;
}.

Record ClusterConfig := mkClusterConfig {
  cluster_type : string;
  cluster_extra : gmap string string;
}.

Definition ClusterConfig_validate (raw : RawClusterConfig)
    : Validated ClusterConfig :=
  match field "type" str (raw_cluster_type raw) with
  | Return t => Return (mkClusterConfig t (raw_cluster_extra raw))
  | Raise es => Raise es
  end.

(** *** [SolverConfig] *)
Record RawSolverConfig := mkRawSolverConfig {
  raw_solver_type : option string;
  raw_distance : option string;
  raw_max_solve_size : option Z;
}.

Record SolverConfig := mkSolverConfig {
  solver_type : string;
  distance : string;
  max_solve_size : Z;
}.

Definition max_solve_size_field : Field Z := mkField (Some 1%Z) None.

Definition SolverConfig_validate (raw : RawSolverConfig)
    : Validated SolverConfig :=
  let v_type := field "type" str (raw_solver_type raw) in
  let v_distance := field "distance" str (raw_distance raw) in
  let v_max :=
    field "max_solve_size" (constrained Z.leb max_solve_size_field)
      (raw_max_solve_size raw) in
  match v_type, v_distance, v_max with
  | Return t, Return d, Return m => Return (mkSolverConfig t d m)
  | _, _, _ => Raise (errors v_type ++ errors v_distance ++ errors v_max)
  end.

(** *** [RouteInput] *)
Record RawRouteInput := mkRawRouteInput {
  raw_vehicle_cluster_config : option RawClusterConfig;
  raw_solver_config : option RawSolverConfig;
  raw_orders : option (list RawOrder);
}.

Record RouteInput := mkRouteInput {
  vehicle_cluster_config : ClusterConfig;
  solver_config : SolverConfig;
  orders : list OrderInput;
}.

Inductive ValueError := mkValueError (msg : string).

(** The loop of [orders_unique], from the ids seen so far. *)
Fixpoint orders_unique_from (seen_id : gset Z) (v : list OrderInput)
    : Result ValueError unit :=
  match v with
  | [] => Return ()
  | order :: v' =>
      if bool_decide (order_id order ∈ seen_id)
      then Raise (mkValueError "order_id must be unique")
      else orders_unique_from ({[order_id order]} ∪ seen_id) v'
  end.

Definition orders_unique (v : list OrderInput)
    : Result ValueError (list OrderInput) :=
  match orders_unique_from ∅ v with
  | Raise e => Raise e
  | Return _ => Return v
  end.

(** The [orders] field: the list is validated item by item; the field
    validator runs on the validated list (it is an "after" validator),
    and pydantic reports the [ValueError] it raises as a [value_error]
    of the field. *)
Definition orders_validate (raw : list RawOrder) : Validated (list OrderInput) :=
  match list_items OrderInput_validate 0 raw with
  | Raise es => Raise es
  | Return v =>
      match orders_unique v with
      | Raise (mkValueError msg) => Raise [mkError [] (value_error msg)]
      | Return v' => Return v'
      end
  end.

Definition RouteInput_validate (raw : RawRouteInput) : Validated RouteInput :=
  let v_cluster :=
    field "vehicle_cluster_config" ClusterConfig_validate
      (raw_vehicle_cluster_config raw) in
  let v_solver :=
    field "solver_config" SolverConfig_validate (raw_solver_config raw) in
  let v_orders := field "orders" orders_validate (raw_orders raw) in
  match v_cluster, v_solver, v_orders with
  | Return c, Return s, Return o => Return (mkRouteInput c s o)
  | _, _, _ => Raise (errors v_cluster ++ errors v_solver ++ errors v_orders)
  end.

(** *** Specification-side definitions *)

(** [lo <= x <= hi], with the comparisons of the number system. *)
Definition within (lo hi : float) (x : num) : Prop :=
  leb (lit lo) x = true ∧ leb x (lit hi) = true.

(** Two records of the list, at different places, have one [order_id]. *)
Definition has_duplicate_id (raw : list RawOrder) : Prop :=
  ∃ (i j : nat) (r1 r2 : RawOrder) (k : Z),
    i ≠ j ∧ raw !! i = Some r1 ∧ raw !! j = Some r2 ∧
    raw_order_id r1 = Some k ∧ raw_order_id r2 = Some k.

(** The records of the input break one of the constraints on orders: two of
    them have one [order_id], or one has a latitude outside [-90, 90] or a
    longitude outside [-180, 180]. *)
Definition violates_a_constraint (route : RawRouteInput) : Prop :=
  ∃ ros, raw_orders route = Some ros ∧
    (has_duplicate_id ros ∨
     ∃ (r : RawOrder) (x : num), r ∈ ros ∧
       ((raw_lat r = Some x ∧ ¬ within (-90) 90 x) ∨
        (raw_lon r = Some x ∧ ¬ within (-180) 180 x))).

End Models.

End Pydantic.

(** ** The Python store

    [equi_rect_project] receives two Python lists.  Lists are mutable
    objects passed by reference, so they live in a store and the function
    takes their addresses.  NumPy arrays made inside the function are fresh
    and reach nobody else before they are returned: they are plain values. *)

Module Python.
Import Pydantic.

Definition loc := positive.

Section Store.
Context {num : Type} {AR : Arith num}.

(** What [json.load] returns for a file: an object with the keys of a
    [RouteInput], or a list of routes (each a list of order ids). *)
Inductive json :=
| JObject (raw : RawRouteInput (num := num))
| JArray (routes : list (list Z)).

Record World := mkWorld {
  (** the list objects, by address; an address with no object reads as [[]] *)
  heap : gmap loc (list num);
  (** the files [open] can read, by path, as [json.load] decodes them *)
  files : gmap string json;
  (** history variable: the arguments (the lists' contents) of every call
      that driver code made to [erp.equi_rect_project], latest first *)
  erp_calls : list (list num * list num);
}.

Inductive Exception :=
| FileNotFoundError (path : string)
| TypeError
| ValidationError (errors : list ErrorDetails).

(** A Python computation: from a world to a result, or an exception, and
    the world it leaves. *)
Definition Py (A : Type) : Type := World → Result Exception A * World.

#[global] Instance Py_ret : MRet Py := λ A a w, (Return a, w).

#[global] Instance Py_bind : MBind Py := λ A B k m w,
  match m w with
  | (Return a, w') => k a w'
  | (Raise e, w') => (Raise e, w')
  end.

Definition raise {A} (e : Exception) : Py A := λ w, (Raise e, w).

(** [with open(path) as file: json.load(file)] *)
Definition json_load (path : string) : Py json := λ w,
  match files w !! path with
  | Some content => (Return content, w)
  | None => (Raise (FileNotFoundError path), w)
  end.

(** A list display or comprehension: a new list object. *)
Definition new_list (l : list num) : Py loc := λ w,
  let a := fresh (dom (heap w)) in
  (Return a, mkWorld (<[a := l]> (heap w)) (files w) (erp_calls w)).

(** [np.array(l)] copies the list at [l] into a new array. *)
Definition np_array (l : loc) : Py (list num) := λ w,
  (Return (heap w !!! l), w).

(** ** [er_projection.py] *)

Definition equi_rect_project (latitudes longitudes : loc)
    : Py (list num * list num) :=
  latitudes ← np_array latitudes;
  longitudes ← np_array longitudes;

  let r := lit 6371%float in
  let centre_point_deg := lit (-31.952258602714696)%float in

  let center_latitude_radians := np_radians centre_point_deg in
  let longitudes_radians := np_radians <$> longitudes in
  let latitudes_radians := np_radians <$> latitudes in

  let longitudes :=
    (λ x, mul x (np_cos center_latitude_radians)) <$> (mul r <$> longitudes_radians) in
  let latitudes := mul r <$> latitudes_radians in

  mret (latitudes, longitudes).

(** ** [main.py] and [visualise_deliveries.py] *)

(** [RouteInput] called on the unpacked [locations]: unpacking needs a
    mapping, and the model's constructor validates what it is given. *)
Definition RouteInput_new (locations : json) : Py RouteInput :=
  match locations with
  | JArray _ => raise TypeError
  | JObject raw =>
      match RouteInput_validate raw with
      | Raise es => raise (ValidationError es)
      | Return locations => mret locations
      end
  end.

(** [erp.equi_rect_project(lats, longs)] in driver code; the history
    variable takes note of the arguments. *)
Definition erp_equi_rect_project (lats longs : loc) : Py (list num * list num) :=
  (λ w, (Return (),
         mkWorld (heap w) (files w)
           ((heap w !!! lats, heap w !!! longs) :: erp_calls w)));;
  equi_rect_project lats longs.

(** [{order.order_id: {'lat': order.lat, 'lon': order.lon} for order in orders}] *)
Definition orders_dict (orders : list OrderInput) : gmap Z (gmap string num) :=
  foldl (λ d order,
           <[order_id order := {["lat" := lat order; "lon" := lon order]}]> d)
    ∅ orders.

Definition reformat (locations_path routes_path : string)
    : Py (list num * list num * gmap Z (gmap string num) * json) :=
  locations ← json_load locations_path;
  routes ← json_load routes_path;

  locations ← RouteInput_new locations;
  lats ← new_list (lat <$> orders locations);
  longs ← new_list (lon <$> orders locations);
  '(lats, longs) ← erp_equi_rect_project lats longs;
  let orders := orders_dict (orders locations) in

  mret (lats, longs, orders, routes).

Definition reformat_locations (locations_path : string)
    : Py (list num * list num * gmap Z (gmap string num)) :=
  locations ← json_load locations_path;

  locations ← RouteInput_new locations;
  lats ← new_list (lat <$> orders locations);
  longs ← new_list (lon <$> orders locations);
  '(lats, longs) ← erp_equi_rect_project lats longs;
  let orders := orders_dict (orders locations) in

  mret (lats, longs, orders).

(** ** Harness and specification-side definitions *)

(** A call of [equi_rect_project] on two lists made for the call, in a
    world with nothing else in it. *)
Definition projected (latitudes longitudes : list num)
    : Result Exception (list num * list num) :=
  fst ((lats ← new_list latitudes;
        longs ← new_list longitudes;
        equi_rect_project lats longs) (mkWorld ∅ ∅ [])).

(** The world that [reformat] leaves when it returns: [w] with the two
    lists of the comprehensions, and the call of the projection in the
    history. *)
Definition after_projection (w : World) (locations : RouteInput) : World :=
  let lats := lat <$> orders locations in
  let longs := lon <$> orders locations in
  let a := fresh (dom (heap w)) in
  let b := fresh (dom (<[a := lats]> (heap w))) in
  mkWorld (<[b := longs]> (<[a := lats]> (heap w))) (files w)
    ((lats, longs) :: erp_calls w).

(** The closed form of the specification, for one latitude and for one
    longitude. *)
Definition spec_latitude (lat_i : num) : num :=
  mul (lit 6371%float) (np_radians lat_i).

Definition spec_longitude (lon_i : num) : num :=
  mul (mul (lit 6371%float) (np_radians lon_i))
      (np_cos (np_radians (lit (-31.952258602714696)%float))).

End Store.
End Python.

(** ** [er_projection.py], with what NumPy tells [warnings]

    After an operation on an array NumPy reads the floating-point status
    flags and, as it is set up when it is imported (warn on overflow and on
    invalid, ignore underflow), raises a [RuntimeWarning] through
    [warnings.warn] for a flag that an element has set.
    [Python.equi_rect_project] leaves the warnings out; here the same
    function is read with them.  [np.radians] multiplies by a number
    below 1, and [np.cos] is called on one finite number: the three
    multiplications of the body are the operations that can set a flag. *)

Module Warnings.
Import Python.

Inductive Warning :=
| RuntimeWarning (message : string).

Definition overflow_in_multiply : Warning :=
  RuntimeWarning "overflow encountered in multiply".
Definition invalid_in_multiply : Warning :=
  RuntimeWarning "invalid value encountered in multiply".

Section Process.
Context {num : Type} {AR : Arith num} {FE : FloatErrors num}.

Record Process := mkProcess {
  store : World (num := num);
  (** the warnings raised through [warnings.warn], first warning first *)
  warned : list Warning;
}.

Definition Np (A : Type) : Type := Process → Result Exception A * Process.

#[global] Instance Np_ret : MRet Np := λ A a p, (Return a, p).

#[global] Instance Np_bind : MBind Np := λ A B k m p,
  match m p with
  | (Return a, p') => k a p'
  | (Raise e, p') => (Raise e, p')
  end.

(** Code of [Python], which raises no warning. *)
Definition quiet {A} (m : Py A) : Np A := λ p,
  let '(r, w') := m (store p) in (r, mkProcess w' (warned p)).

Definition warnings_warn (w : Warning) : Np unit := λ p,
  (Return (), mkProcess (store p) (warned p ++ [w])).

(** The check after a multiplication, on the pairs of numbers it has
    multiplied: one warning for a flag, however many elements have set it,
    overflow before invalid. *)
Definition check_flags (multiplied : list (num * num)) : Np unit :=
  (if existsb (λ xy, mul_overflow xy.1 xy.2) multiplied
   then warnings_warn overflow_in_multiply else mret ());;
  (if existsb (λ xy, mul_invalid xy.1 xy.2) multiplied
   then warnings_warn invalid_in_multiply else mret ()).

(** [x * ys] and [xs * y], for a number and an array. *)
Definition number_times (x : num) (ys : list num) : Np (list num) :=
  check_flags ((λ y, (x, y)) <$> ys);;
  mret (mul x <$> ys).

Definition times_number (xs : list num) (y : num) : Np (list num) :=
  check_flags ((λ x, (x, y)) <$> xs);;
  mret ((λ x, mul x y) <$> xs).

Definition equi_rect_project (latitudes longitudes : loc)
    : Np (list num * list num) :=
  latitudes ← quiet (np_array latitudes);
  longitudes ← quiet (np_array longitudes);

  let r := lit 6371%float in
  let centre_point_deg := lit (-31.952258602714696)%float in

  let center_latitude_radians := np_radians centre_point_deg in
  let longitudes_radians := np_radians <$> longitudes in
  let latitudes_radians := np_radians <$> latitudes in

  r_longitudes ← number_times r longitudes_radians;
  longitudes ← times_number r_longitudes (np_cos center_latitude_radians);
  latitudes ← number_times r latitudes_radians;

  mret (latitudes, longitudes).

(** *** Specification-side definitions *)

(** The warnings of one multiplication. *)
Definition raised (multiplied : list (num * num)) : list Warning :=
  (if existsb (λ xy, mul_overflow xy.1 xy.2) multiplied
   then [overflow_in_multiply] else [])
  ++ (if existsb (λ xy, mul_invalid xy.1 xy.2) multiplied
      then [invalid_in_multiply] else []).

(** The pairs of numbers that a call multiplies, for the latitudes and the
    longitudes it is given. *)
Definition multiplied (latitudes longitudes : list num) : list (num * num) :=
  ((λ x, (lit 6371%float, np_radians x)) <$> longitudes)
  ++ ((λ x, (mul (lit 6371%float) (np_radians x),
             np_cos (np_radians (lit (-31.952258602714696)%float)))) <$> longitudes)
  ++ ((λ x, (lit 6371%float, np_radians x)) <$> latitudes).

(** The warnings of a call, multiplication by multiplication. *)
Definition issued (latitudes longitudes : list num) : list Warning :=
  raised ((λ x, (lit 6371%float, np_radians x)) <$> longitudes)
  ++ raised
       ((λ x, (mul (lit 6371%float) (np_radians x),
               np_cos (np_radians (lit (-31.952258602714696)%float)))) <$> longitudes)
  ++ raised ((λ x, (lit 6371%float, np_radians x)) <$> latitudes).

End Process.
End Warnings.

(** ** Concrete inputs, in binary64 *)

Module Examples.
Import Pydantic Python.

#[export] Instance binary64 : Arith float := Float64.arith Float64.cos_centre.

(** A world with two list objects in it. *)
Definition two_lists : World (num := float) :=
  mkWorld {[ 1%positive := [5; 10; 15]%float; 2%positive := [115.8; 116; 116.2]%float ]} ∅ [].

(** The same two lists, at other addresses, in a world with a history. *)
Definition two_lists_elsewhere : World (num := float) :=
  mkWorld {[ 7%positive := [115.8; 116; 116.2]%float; 9%positive := [5; 10; 15]%float ]}
    ∅ [([], [])].

Definition one_empty_list : World (num := float) :=
  mkWorld {[ 1%positive := [] ]} ∅ [].

(** A world with a latitude of 1e308 degrees. *)
Definition one_huge_latitude : World (num := float) :=
  mkWorld {[ 1%positive := [1e308]%float; 2%positive := [] ]} ∅ [].

Definition order_16 : RawOrder (num := float) :=
  mkRawOrder (Some 16%Z) (Some (-31.899364)%float) (Some 115.801288%float).

Definition order_17 : RawOrder (num := float) :=
  mkRawOrder (Some 17%Z) (Some (-31.95)%float) (Some 115.86%float).

Definition order_16_again : RawOrder (num := float) :=
  mkRawOrder (Some 16%Z) (Some (-32)%float) (Some 116%float).

Definition order_north_of_pole : RawOrder (num := float) :=
  mkRawOrder (Some 3%Z) (Some 90.5%float) (Some 115.8%float).

Definition order_past_date_line : RawOrder (num := float) :=
  mkRawOrder (Some 4%Z) (Some (-31.9)%float) (Some (-180.5)%float).

Definition order_negative_id : RawOrder (num := float) :=
  mkRawOrder (Some (-1)%Z) (Some (-31.9)%float) (Some 115.8%float).

Definition parsed (raw : RawOrder (num := float)) : OrderInput (num := float) :=
  mkOrderInput (default 0%Z (raw_order_id raw)) (default 0%float (raw_lat raw))
    (default 0%float (raw_lon raw)).

Definition cluster : RawClusterConfig := mkRawClusterConfig (Some "kmeans") ∅.

Definition solver (max_solve_size : Z) : RawSolverConfig :=
  mkRawSolverConfig (Some "brute") (Some "haversine") (Some max_solve_size).

Definition route_of (orders : list (RawOrder (num := float))) : RawRouteInput :=
  mkRawRouteInput (Some cluster) (Some (solver 5)) (Some orders).

Definition Locations : RawRouteInput (num := float) := route_of [order_16; order_17].
Definition Repeated : RawRouteInput (num := float) := route_of [order_16; order_17; order_16_again].
Definition Negative : RawRouteInput (num := float) := route_of [order_16; order_negative_id].
Definition Repeated_and_north : RawRouteInput (num := float) :=
  route_of [order_16; order_16_again; order_north_of_pole].

Definition Locations_parsed : RouteInput (num := float) :=
  mkRouteInput (mkClusterConfig "kmeans" ∅) (mkSolverConfig "brute" "haversine" 5)
    [parsed order_16; parsed order_17].

Definition data : World (num := float) :=
  mkWorld ∅
    {[ "data/Locations.json" := JObject Locations;
       "data/Repeated.json" := JObject Repeated;
       "data/Locations_route.json" := JArray [[16; 17; 16]%Z] ]}
    [].

End Examples.

(** ** Drawing: [__add_lines] and [create_graph]

    [matplotlib.pyplot] is a state machine behind a module; a script is
    what it asks of it, one call after the other.  The calls, with their
    arguments, are kept in the order they were made. *)

Module Plot.
Import Pydantic Python.

Section Plotting.
Context {num : Type} {AR : Arith num}.

(** The keys of the dictionaries of driver code. *)
Inductive PyKey :=
| KInt (k : Z)
| KStr (k : string).

Inductive Failure :=
| KeyError (key : PyKey)
| IndexError
| OSError (path : string)
(** an exception of the code modelled in [Python] *)
| FromPy (e : Exception).

(** [dict(facecolor=, shrink=, headlength=, headwidth=, width=)] *)
Record ArrowProps := mkArrowProps {
  facecolor : string;
  shrink : num;
  headlength : Z;
  headwidth : Z;
  width : Z;
}.

Inductive PltCall :=
| plt_figure (figsize : Z * Z)
| plt_scatter (x y : list num) (color marker : string)
| plt_annotate (text : string) (xy xytext : num * num) (arrowprops : ArrowProps)
| plt_title (label : string)
| plt_xlabel (label : string)
| plt_ylabel (label : string)
| plt_grid (visible : bool)
| plt_savefig (fname : string) (dpi : Z) (bbox_inches : string)
| plt_close (fig : nat).

Record Session := mkSession {
  world : World (num := num);
  (** the calls made to [plt], first call first *)
  canvas : list PltCall;
}.

Definition Script (A : Type) : Type := Session → Result Failure A * Session.

#[global] Instance Script_ret : MRet Script := λ A a s, (Return a, s).

#[global] Instance Script_bind : MBind Script := λ A B k m s,
  match m s with
  | (Return a, s') => k a s'
  | (Raise e, s') => (Raise e, s')
  end.

Definition fail {A} (e : Failure) : Script A := λ s, (Raise e, s).

(** Code of [Python], run in a session. *)
Definition lift {A} (m : Py A) : Script A := λ s,
  match m (world s) with
  | (Return a, w') => (Return a, mkSession w' (canvas s))
  | (Raise e, w') => (Raise (FromPy e), mkSession w' (canvas s))
  end.

Definition plt (call : PltCall) : Script unit := λ s,
  (Return (), mkSession (world s) (canvas s ++ [call])).

(** [fig = plt.figure(figsize=...)]: a figure is known by the place of the
    call that made it. *)
Definition plt_figure_new (figsize : Z * Z) : Script nat := λ s,
  (Return (length (canvas s)),
   mkSession (world s) (canvas s ++ [plt_figure figsize])).

(** [l.append(v)] *)
Definition list_append (l : loc) (v : num) : Script unit := λ s,
  let w := world s in
  (Return (),
   mkSession (mkWorld (<[l := heap w !!! l ++ [v]]> (heap w)) (files w) (erp_calls w))
     (canvas s)).

(** [range(n)], which is empty when [n] is negative. *)
Definition range (n : Z) : list nat := seq 0 (Z.to_nat n).

(** [for x in l: body] *)
Fixpoint for_each {A} (l : list A) (body : A → Script unit) : Script unit :=
  match l with
  | [] => mret ()
  | x :: l' => body x;; for_each l' body
  end.

(** [l[i]] on a list or an array, for [i] not negative. *)
Definition getitem {A} (l : list A) (i : nat) : Script A :=
  match l !! i with
  | Some v => mret v
  | None => fail IndexError
  end.

(** [orders_dict[order_id][key]] *)
Definition orders_getitem (orders_dict : gmap Z (gmap string num))
    (order_id : Z) (key : string) : Script num :=
  match orders_dict !! order_id with
  | None => fail (KeyError (KInt order_id))
  | Some entry =>
      match entry !! key with
      | None => fail (KeyError (KStr key))
      | Some v => mret v
      end
  end.

Definition arrowprops : ArrowProps := mkArrowProps "red" (lit 0.15%float) 7 7 3.

Definition __add_lines (routes : list (list Z))
    (orders_dict : gmap Z (gmap string num)) : Script unit :=
  start_longs ← lift (new_list []);
  start_lat ← lift (new_list []);
  end_longs ← lift (new_list []);
  end_lats ← lift (new_list []);
  for_each routes (λ route,
    for_each (range (Z.of_nat (length route) - 1)) (λ i,
      start_id ← getitem route i;
      end_id ← getitem route (i + 1);

      (v ← orders_getitem orders_dict start_id "lon"; list_append start_longs v);;
      (v ← orders_getitem orders_dict start_id "lat"; list_append start_lat v);;
      (v ← orders_getitem orders_dict end_id "lon"; list_append end_longs v);;
      (v ← orders_getitem orders_dict end_id "lat"; list_append end_lats v)));;

  '(start_lats, start_longs) ← lift (erp_equi_rect_project start_lat start_longs);
  '(end_lats, end_longs) ← lift (erp_equi_rect_project end_lats end_longs);

  for_each (range (Z.of_nat (length start_lats))) (λ i,
    end_long ← getitem end_longs i;
    end_lat ← getitem end_lats i;
    start_long ← getitem start_longs i;
    start_lat ← getitem start_lats i;
    plt (plt_annotate "" (end_long, end_lat) (start_long, start_lat) arrowprops)).

(** What the platform decides: how [os.path.join] joins, and whether a file
    can be written where [savefig] is told to. *)
Variable os_path_join : string → list string → string.
Variable savefig_refused : string → bool.

Definition plt_savefig_to (fname : string) (dpi : Z) (bbox_inches : string)
    : Script unit :=
  if savefig_refused fname then fail (OSError fname)
  else plt (plt_savefig fname dpi bbox_inches).

Definition create_graph (locations_file : string) (route : list Z)
    (folder_name file_name : string) : Script unit :=
  let locations_path := os_path_join "data" [locations_file] in
  let route := [route] in

  '(lats, longs, orders) ← lift (reformat_locations locations_path);

  fig ← plt_figure_new (10, 6)%Z;
  plt (plt_scatter longs lats "blue" "o");;
  __add_lines route orders;;
  plt (plt_title "Equirectangular Projection Scatter Plot");;
  plt (plt_xlabel "Longitude (km)");;
  plt (plt_ylabel "Latitude (km)");;
  plt (plt_grid true);;
  plt_savefig_to (os_path_join "data" [folder_name; file_name +:+ ".png"]) 300 "tight";;
  plt (plt_close fig).

(** *** Specification-side definitions *)

(** The pairs of one stop and the next, along a route. *)
Fixpoint consecutive (route : list Z) : list (Z * Z) :=
  match route with
  | [] => []
  | start_id :: rest =>
      match rest with
      | [] => []
      | end_id :: _ => (start_id, end_id) :: consecutive rest
      end
  end.

(** The edges of all routes, route after route. *)
Definition edges (routes : list (list Z)) : list (Z * Z) :=
  routes ≫= consecutive.

(** The [lon] and [lat] of an order, as the loop of [__add_lines] reads
    them, or the key it does not find. *)
Definition point (orders_dict : gmap Z (gmap string num)) (order_id : Z)
    : Result PyKey (num * num) :=
  match orders_dict !! order_id with
  | None => Raise (KInt order_id)
  | Some entry =>
      match entry !! "lon", entry !! "lat" with
      | None, _ => Raise (KStr "lon")
      | Some _, None => Raise (KStr "lat")
      | Some lo, Some la => Return (lo, la)
      end
  end.

(** The arrow from one ([lon], [lat]) to another, on the plane. *)
Definition arrow (ends : (num * num) * (num * num)) : PltCall :=
  let '((start_lon, start_lat), (end_lon, end_lat)) := ends in
  plt_annotate ""
    (spec_longitude end_lon, spec_latitude end_lat)
    (spec_longitude start_lon, spec_latitude start_lat)
    arrowprops.

(** The parts of [__add_lines], each under a name: the four appends for
    one edge, the body of the inner loop, the two nested loops, and the loop
    that draws. *)
Definition edge_step (orders_dict : gmap Z (gmap string num))
    (start_longs start_lat end_longs end_lats : loc) (start_id end_id : Z)
    : Script unit :=
  (v ← orders_getitem orders_dict start_id "lon"; list_append start_longs v);;
  (v ← orders_getitem orders_dict start_id "lat"; list_append start_lat v);;
  (v ← orders_getitem orders_dict end_id "lon"; list_append end_longs v);;
  (v ← orders_getitem orders_dict end_id "lat"; list_append end_lats v).

Definition edge_body (orders_dict : gmap Z (gmap string num))
    (start_longs start_lat end_longs end_lats : loc) (route : list Z) (i : nat)
    : Script unit :=
  start_id ← getitem route i;
  end_id ← getitem route (i + 1);
  edge_step orders_dict start_longs start_lat end_longs end_lats start_id end_id.

Definition collect_edges (orders_dict : gmap Z (gmap string num))
    (start_longs start_lat end_longs end_lats : loc) (routes : list (list Z))
    : Script unit :=
  for_each routes (λ route,
    for_each (range (Z.of_nat (length route) - 1))
      (edge_body orders_dict start_longs start_lat end_longs end_lats route)).

Definition draw_arrows (start_lats start_longs end_lats end_longs : list num)
    : Script unit :=
  for_each (range (Z.of_nat (length start_lats))) (λ i,
    end_long ← getitem end_longs i;
    end_lat ← getitem end_lats i;
    start_long ← getitem start_longs i;
    start_lat ← getitem start_lats i;
    plt (plt_annotate "" (end_long, end_lat) (start_long, start_lat) arrowprops)).

(** The ends of every edge, edge after edge, or the first key that the
    loop of [__add_lines] does not find. *)
Fixpoint gather (orders_dict : gmap Z (gmap string num)) (es : list (Z * Z))
    : Result PyKey (list ((num * num) * (num * num))) :=
  match es with
  | [] => Return []
  | (start_id, end_id) :: es' =>
      match point orders_dict start_id with
      | Raise k => Raise k
      | Return p =>
          match point orders_dict end_id with
          | Raise k => Raise k
          | Return q =>
              match gather orders_dict es' with
              | Raise k => Raise k
              | Return ends => Return ((p, q) :: ends)
              end
          end
      end
  end.

(** Both stops of the edge are in the dictionary, with their [lon] and
    [lat]: [ends] holds them, start first. *)
Definition ends_of (orders_dict : gmap Z (gmap string num)) (edge : Z * Z)
    (ends : (num * num) * (num * num)) : Prop :=
  point orders_dict edge.1 = Return ends.1 ∧ point orders_dict edge.2 = Return ends.2.

(** The ends of the edge are the [lon] and [lat] of the orders whose
    [order_id]s are its stops. *)
Definition ends_in (orders : list (OrderInput (num := num))) (edge : Z * Z)
    (ends : (num * num) * (num * num)) : Prop :=
  ∃ o1 o2, o1 ∈ orders ∧ o2 ∈ orders ∧
    order_id o1 = edge.1 ∧ order_id o2 = edge.2 ∧
    ends = ((lon o1, lat o1), (lon o2, lat o2)).

(** The four lists that the loops of [__add_lines] fill, read off the ends
    of the edges. *)
Definition start_lons (ends : list ((num * num) * (num * num))) : list num :=
  (λ e, e.1.1) <$> ends.
Definition start_lats (ends : list ((num * num) * (num * num))) : list num :=
  (λ e, e.1.2) <$> ends.
Definition end_lons (ends : list ((num * num) * (num * num))) : list num :=
  (λ e, e.2.1) <$> ends.
Definition end_lats (ends : list ((num * num) * (num * num))) : list num :=
  (λ e, e.2.2) <$> ends.

(** A session with four more list objects. *)
Definition with_lists (s : Session) (a1 a2 a3 a4 : loc) (l1 l2 l3 l4 : list num)
    : Session :=
  mkSession
    (mkWorld (<[a4 := l4]> (<[a3 := l3]> (<[a2 := l2]> (<[a1 := l1]> (heap (world s))))))
       (files (world s)) (erp_calls (world s)))
    (canvas s).

(** The addresses of the four lists that [__add_lines] makes, in the order
    it makes them. *)
Definition new_addresses (s : Session) : loc * loc * loc * loc :=
  let h := heap (world s) in
  let a1 := fresh (dom h) in
  let a2 := fresh (dom (<[a1 := []]> h)) in
  let a3 := fresh (dom (<[a2 := []]> (<[a1 := []]> h))) in
  let a4 := fresh (dom (<[a3 := []]> (<[a2 := []]> (<[a1 := []]> h)))) in
  (a1, a2, a3, a4).

(** The session that [__add_lines] leaves when it returns, with the ends of
    the edges it drew: four more lists, two more calls of the projection,
    one arrow more for each edge. *)
Definition after_add_lines (s : Session) (ends : list ((num * num) * (num * num)))
    : Session :=
  let '(a1, a2, a3, a4) := new_addresses s in
  let filled :=
    with_lists s a1 a2 a3 a4 (start_lons ends) (start_lats ends)
      (end_lons ends) (end_lats ends) in
  mkSession
    (mkWorld (heap (world filled)) (files (world s))
       ((end_lats ends, end_lons ends) :: (start_lats ends, start_lons ends)
        :: erp_calls (world s)))
    (canvas s ++ (arrow <$> ends)).

(** The session of [create_graph] when it reaches [__add_lines]: the
    locations are read and projected, the figure is made and the orders are
    scattered on it. *)
Definition with_scatter (s : Session) (locations : RouteInput) : Session :=
  mkSession (after_projection (world s) locations)
    (canvas s
     ++ [plt_figure (10, 6)%Z;
         plt_scatter (spec_longitude <$> (lon <$> orders locations))
           (spec_latitude <$> (lat <$> orders locations)) "blue" "o"]).

(** The four calls between the arrows and [savefig]. *)
Definition labels : list PltCall :=
  [plt_title "Equirectangular Projection Scatter Plot";
   plt_xlabel "Longitude (km)"; plt_ylabel "Latitude (km)"; plt_grid true].

(** The session differs from an earlier one on list objects that the
    earlier one did not have, and on nothing else. *)
Definition only_new_lists (s s' : Session) : Prop :=
  files (world s') = files (world s) ∧
  erp_calls (world s') = erp_calls (world s) ∧
  canvas s' = canvas s ∧
  ∀ a, is_Some (heap (world s) !! a) → heap (world s') !! a = heap (world s) !! a.

End Plotting.
End Plot.

(** ** Concrete inputs for drawing, in binary64 *)

Module PlotExamples.
Import Pydantic Python Examples Plot.

(** A world with three list objects of two lengths. *)
Definition three_lists : World (num := float) :=
  mkWorld {[ 1%positive := [5; 10; 15]%float;
             2%positive := [115.8; 116; 116.2]%float;
             3%positive := [1]%float ]} ∅ [].

(** The dictionary of the orders of [Locations]. *)
Definition orders_16_17 : gmap Z (gmap string float) :=
  orders_dict (orders Locations_parsed).

(** The ([lon], [lat]) of the two orders. *)
Definition at_16 : float * float := (115.801288, -31.899364)%float.
Definition at_17 : float * float := (115.86, -31.95)%float.

(** A session on the files of [data] with nothing drawn yet. *)
Definition blank : Session (num := float) := mkSession data [].

(** Names joined with a slash, as [os.path.join] joins relative names on a
    POSIX system. *)
Definition slash_join (a : string) (l : list string) : string :=
  foldl (λ path b, path +:+ "/" +:+ b) a l.

Definition always_writable (fname : string) : bool := false.
Definition never_writable (fname : string) : bool := true.

End PlotExamples.

(** ** Validated values, written back as inputs *)

Module Encode.
Import Pydantic.

Section Models.
Context {num : Type} {AR : Arith num}.

Definition order_input (o : OrderInput (num := num)) : RawOrder :=
  mkRawOrder (Some (order_id o)) (Some (lat o)) (Some (lon o)).

Definition cluster_input (c : ClusterConfig) : RawClusterConfig :=
  mkRawClusterConfig (Some (cluster_type c)) (cluster_extra c).

Definition solver_input (s : SolverConfig) : RawSolverConfig :=
  mkRawSolverConfig (Some (solver_type s)) (Some (distance s))
    (Some (max_solve_size s)).

Definition route_input (r : RouteInput (num := num)) : RawRouteInput :=
  mkRawRouteInput (Some (cluster_input (vehicle_cluster_config r)))
    (Some (solver_input (solver_config r)))
    (Some (order_input <$> orders r)).

(** What the models promise of a [RouteInput]. *)
Definition well_formed (r : RouteInput (num := num)) : Prop :=
  (1 ≤ max_solve_size (solver_config r))%Z ∧
  Forall (λ o, (0 ≤ order_id o)%Z ∧ within (-90) 90 (lat o) ∧
               within (-180) 180 (lon o)) (orders r) ∧
  NoDup (order_id <$> orders r).

End Models.
End Encode.

(** * Properties *)

Module PydanticFacts.
Import Pydantic Examples.

Section Combinators.
Context {X Y : Type}.

Lemma constrained_Return (le_X : X → X → bool) (c : Field X) (x y : X) :
  constrained le_X c x = Return y ↔
  y = x ∧ below_ge le_X c x = false ∧ above_le le_X c x = false.
Proof.
  unfold constrained.
  destruct (below_ge le_X c x), (above_le le_X c x); split;
    try discriminate; try (intros (_ & ? & ?); discriminate).
  - intros [= ->]. auto.
  - intros (-> & _ & _). reflexivity.
Qed.

Lemma under_Return (item : LocItem) (r : Validated Y) (y : Y) :
  under item r = Return y ↔ r = Return y.
Proof. destruct r; simpl; split; congruence. Qed.

Lemma field_Return (name : string) (inner : X → Validated Y) (value : option X) (y : Y) :
  field name inner value = Return y ↔ ∃ x, value = Some x ∧ inner x = Return y.
Proof.
  unfold field. destruct value as [x|].
  - rewrite under_Return. split; [eauto|]. intros (x' & [= <-] & ?). assumption.
  - split; [discriminate|]. intros (x & ? & _). discriminate.
Qed.

Lemma list_items_Return (inner : X → Validated Y) (l : list X) :
  ∀ (i : nat) (ys : list Y),
    list_items inner i l = Return ys ↔ Forall2 (λ x y, inner x = Return y) l ys.
Proof.
  induction l as [|x l IH]; intros i ys; simpl.
  - split.
    + intros [= <-]. constructor.
    + intros H. inversion H. reflexivity.
  - destruct (inner x) as [es|y] eqn:Hx; simpl.
    + split; [discriminate|]. intros H. inversion H; subst. congruence.
    + destruct (list_items inner (S i) l) as [es|ys'] eqn:Hl.
      * split; [discriminate|]. intros H. inversion H as [|? y' ? ys'' Hy Hrest]; subst.
        apply (IH (S i)) in Hrest. congruence.
      * split.
        -- intros [= <-]. constructor; [assumption|]. apply (IH (S i)). assumption.
        -- intros H. inversion H as [|? y' ? ys'' Hy Hrest]; subst.
           apply (IH (S i)) in Hrest. congruence.
Qed.

(** The errors of a field are reported under its name, those of a list
    under the index of the item. *)
Lemma field_errors_loc (name : string) (inner : X → Validated Y) (value : option X)
    (e : ErrorDetails) :
  e ∈ errors (field name inner value) → ∃ rest, err_loc e = Key name :: rest.
Proof.
  unfold field. destruct value as [x|]; simpl.
  - destruct (inner x) as [es|y]; simpl; [|by intros ?%elem_of_nil].
    intros (e' & -> & _)%list_elem_of_fmap. eauto.
  - intros ->%list_elem_of_singleton. eauto.
Qed.

Lemma list_items_errors_loc (inner : X → Validated Y) (l : list X) (e : ErrorDetails) :
  ∀ i, e ∈ errors (list_items inner i l) → ∃ j rest, err_loc e = Index j :: rest.
Proof.
  induction l as [|x l IH]; intros i; simpl; [by intros ?%elem_of_nil|].
  assert (e ∈ errors (under (Index i) (inner x)) ++ errors (list_items inner (S i) l) →
          ∃ j rest, err_loc e = Index j :: rest) as Hboth.
  { intros [He|He]%elem_of_app; [|by apply (IH (S i))].
    destruct (inner x) as [es|y]; simpl in He; [|by apply elem_of_nil in He].
    apply list_elem_of_fmap in He as (e' & -> & _). eauto. }
  destruct (under (Index i) (inner x)) as [es|y] eqn:Hx;
    [exact Hboth|].
  destruct (list_items inner (S i) l) as [es|ys] eqn:Hl; [exact Hboth|].
  by intros ?%elem_of_nil.
Qed.

(** Validation is a function: a list of inputs has one list of values. *)
Lemma validated_once (inner : X → Validated Y) (l : list X) (ys ys' : list Y) :
  Forall2 (λ x y, inner x = Return y) l ys →
  Forall2 (λ x y, inner x = Return y) l ys' →
  ys = ys'.
Proof.
  intros Hys. revert ys'. induction Hys as [|x y l ys Hxy _ IH]; intros ys' Hys'.
  - by inversion Hys'.
  - inversion Hys' as [|? y' ? ys'' Hxy' Hrest]; subst. f_equal; [congruence|].
    by apply IH.
Qed.

End Combinators.

(** A result that is not a value is an exception. *)
Lemma not_Return_Raise {E A} (r : Result E A) :
  (∀ a, r ≠ Return a) → ∃ e, r = Raise e.
Proof. destruct r as [e|a]; [eauto|]. intros H. destruct (H a). reflexivity. Qed.

Section Models.
Context {num : Type} {AR : Arith num}.
Implicit Types (raw : RawOrder (num := num)) (o : OrderInput (num := num)).

Lemma int_bound_Return (bound x y : Z) :
  constrained Z.leb (mkField (Some bound) None) x = Return y ↔ y = x ∧ (bound ≤ x)%Z.
Proof.
  rewrite constrained_Return. unfold below_ge, above_le; simpl.
  rewrite negb_false_iff, Z.leb_le. tauto.
Qed.

Lemma int_bound_Raise (bound x : Z) :
  (x < bound)%Z →
  constrained Z.leb (mkField (Some bound) None) x = Raise [mkError [] greater_than_equal].
Proof.
  intros Hlt. unfold constrained, below_ge; simpl.
  destruct (Z.leb_spec bound x); [lia|reflexivity].
Qed.

Lemma float_bounds_Return (lo hi : float) (x y : num) :
  constrained leb (mkField (Some (lit lo)) (Some (lit hi))) x = Return y ↔
  y = x ∧ within lo hi x.
Proof.
  rewrite constrained_Return. unfold below_ge, above_le, within; simpl.
  rewrite !negb_false_iff. tauto.
Qed.

Lemma float_bounds_Raise (lo hi : float) (x : num) :
  ¬ within lo hi x →
  ∃ t, constrained leb (mkField (Some (lit lo)) (Some (lit hi))) x = Raise [mkError [] t].
Proof.
  intros Hout. unfold constrained, below_ge, above_le, within in *; simpl.
  destruct (leb x (lit hi)); simpl; [|eauto].
  destruct (leb (lit lo) x); simpl; [|eauto].
  destruct Hout. auto.
Qed.

Lemma OrderInput_validate_Return raw o :
  OrderInput_validate raw = Return o ↔
  raw_order_id raw = Some (order_id o) ∧ (0 ≤ order_id o)%Z ∧
  raw_lat raw = Some (lat o) ∧ within (-90) 90 (lat o) ∧
  raw_lon raw = Some (lon o) ∧ within (-180) 180 (lon o).
Proof.
  unfold OrderInput_validate, order_id_field, lat_field, lon_field. split.
  - destruct (field "order_id" _ _) as [|i] eqn:Hi; [discriminate|].
    destruct (field "lat" _ _) as [|la] eqn:Hla; [discriminate|].
    destruct (field "lon" _ _) as [|lo] eqn:Hlo; [discriminate|].
    intros [= <-]; simpl.
    apply field_Return in Hi as (? & -> & (-> & ?)%int_bound_Return).
    apply field_Return in Hla as (? & -> & (-> & ?)%float_bounds_Return).
    apply field_Return in Hlo as (? & -> & (-> & ?)%float_bounds_Return).
    split_and!; done.
  - intros (Hi & ? & Hla & ? & Hlo & ?). rewrite Hi, Hla, Hlo.
    assert (field "order_id" (constrained Z.leb (mkField (Some 0%Z) None))
              (Some (order_id o)) = Return (order_id o)) as ->.
    { apply field_Return. eexists. split; [reflexivity|]. by apply int_bound_Return. }
    assert (field "lat"
              (constrained leb (mkField (Some (lit (-90)%float)) (Some (lit 90%float))))
              (Some (lat o)) = Return (lat o)) as ->.
    { apply field_Return. eexists. split; [reflexivity|]. by apply float_bounds_Return. }
    assert (field "lon"
              (constrained leb (mkField (Some (lit (-180)%float)) (Some (lit 180%float))))
              (Some (lon o)) = Return (lon o)) as ->.
    { apply field_Return. eexists. split; [reflexivity|]. by apply float_bounds_Return. }
    destruct o; reflexivity.
Qed.

(** The errors of the three fields of an [OrderInput], in the order of
    the fields, when one of them has an error. *)
Lemma OrderInput_validate_Raise raw (e : ErrorDetails) :
  e ∈ errors (field "order_id" (constrained Z.leb order_id_field) (raw_order_id raw))
      ++ errors (field "lat" (constrained leb lat_field) (raw_lat raw))
      ++ errors (field "lon" (constrained leb lon_field) (raw_lon raw)) →
  ∃ es, OrderInput_validate raw = Raise es ∧ e ∈ es.
Proof.
  unfold OrderInput_validate.
  destruct (field "order_id" _ _), (field "lat" _ _), (field "lon" _ _);
    simpl; intros He; try (eexists; split; [reflexivity|exact He]).
  inversion He.
Qed.

Lemma OrderInput_rejects_lat raw (x : num) :
  raw_lat raw = Some x → ¬ within (-90) 90 x →
  ∃ es, OrderInput_validate raw = Raise es ∧ ∃ e, e ∈ es ∧ err_loc e = [Key "lat"].
Proof.
  intros Hx Hout.
  destruct (float_bounds_Raise (-90) 90 x Hout) as [t Ht].
  destruct (OrderInput_validate_Raise raw (mkError [Key "lat"] t)) as (es & ? & ?).
  { rewrite Hx. unfold field, lat_field. rewrite Ht; simpl. set_solver. }
  eauto.
Qed.

Lemma OrderInput_rejects_lon raw (x : num) :
  raw_lon raw = Some x → ¬ within (-180) 180 x →
  ∃ es, OrderInput_validate raw = Raise es ∧ ∃ e, e ∈ es ∧ err_loc e = [Key "lon"].
Proof.
  intros Hx Hout.
  destruct (float_bounds_Raise (-180) 180 x Hout) as [t Ht].
  destruct (OrderInput_validate_Raise raw (mkError [Key "lon"] t)) as (es & ? & ?).
  { rewrite Hx. unfold field, lon_field. rewrite Ht; simpl. set_solver. }
  eauto.
Qed.

(** C3. An [OrderInput] is made only from a latitude in [-90, 90] and a
    longitude in [-180, 180]; a record whose latitude or longitude is
    outside is rejected, with an error at that field. *)
Theorem OrderInput_lat_lon_in_range raw :
  (∀ o, OrderInput_validate raw = Return o →
        raw_lat raw = Some (lat o) ∧ raw_lon raw = Some (lon o) ∧
        within (-90) 90 (lat o) ∧ within (-180) 180 (lon o)) ∧
  (∀ x, raw_lat raw = Some x → ¬ within (-90) 90 x →
        ∃ es, OrderInput_validate raw = Raise es ∧
              ∃ e, e ∈ es ∧ err_loc e = [Key "lat"]) ∧
  (∀ x, raw_lon raw = Some x → ¬ within (-180) 180 x →
        ∃ es, OrderInput_validate raw = Raise es ∧
              ∃ e, e ∈ es ∧ err_loc e = [Key "lon"]).
Proof.
  split; [|split].
  - intros o (_ & _ & ? & ? & ? & ?)%OrderInput_validate_Return. auto.
  - apply OrderInput_rejects_lat.
  - apply OrderInput_rejects_lon.
Qed.

Lemma SolverConfig_validate_Return (raw : RawSolverConfig) (c : SolverConfig) :
  SolverConfig_validate raw = Return c ↔
  raw_solver_type raw = Some (solver_type c) ∧
  raw_distance raw = Some (distance c) ∧
  raw_max_solve_size raw = Some (max_solve_size c) ∧ (1 ≤ max_solve_size c)%Z.
Proof.
  unfold SolverConfig_validate, max_solve_size_field. split.
  - destruct (field "type" _ _) as [|t] eqn:Ht; [discriminate|].
    destruct (field "distance" _ _) as [|d] eqn:Hd; [discriminate|].
    destruct (field "max_solve_size" _ _) as [|m] eqn:Hm; [discriminate|].
    intros [= <-]; simpl.
    apply field_Return in Ht as (? & -> & [= ->]).
    apply field_Return in Hd as (? & -> & [= ->]).
    apply field_Return in Hm as (? & -> & (-> & ?)%int_bound_Return).
    split_and!; done.
  - intros (-> & -> & -> & ?). unfold field; simpl.
    assert (constrained Z.leb (mkField (Some 1%Z) None) (max_solve_size c)
              = Return (max_solve_size c)) as -> by (by apply int_bound_Return).
    destruct c; reflexivity.
Qed.

(** C7. A [SolverConfig] is made only from a [max_solve_size] of at least
    1; a record whose [max_solve_size] is 0 or negative is rejected, with
    an error at that field. *)
Theorem SolverConfig_max_solve_size_at_least_1 (raw : RawSolverConfig) :
  (∀ c, SolverConfig_validate raw = Return c →
        raw_max_solve_size raw = Some (max_solve_size c) ∧ (1 ≤ max_solve_size c)%Z) ∧
  (∀ m, raw_max_solve_size raw = Some m → (m ≤ 0)%Z →
        ∃ es, SolverConfig_validate raw = Raise es ∧
              mkError [Key "max_solve_size"] greater_than_equal ∈ es).
Proof.
  split.
  - intros c (_ & _ & ? & ?)%SolverConfig_validate_Return. auto.
  - intros m Hm Hle. unfold SolverConfig_validate, max_solve_size_field.
    assert (field "max_solve_size" (constrained Z.leb (mkField (Some 1%Z) None))
              (raw_max_solve_size raw)
            = Raise [mkError [Key "max_solve_size"] greater_than_equal]) as ->.
    { rewrite Hm. unfold field. rewrite int_bound_Raise by lia. reflexivity. }
    destruct (field "type" _ _), (field "distance" _ _); simpl;
      (eexists; split; [reflexivity|set_solver]).
Qed.

(** *** [orders_unique] *)

Lemma orders_unique_from_Return (v : list (OrderInput (num := num))) :
  ∀ seen_id : gset Z,
    orders_unique_from seen_id v = Return () ↔
    NoDup (order_id <$> v) ∧ ∀ k, k ∈ order_id <$> v → k ∉ seen_id.
Proof.
  induction v as [|order v IH]; intros seen_id; simpl.
  - split; [|done]. intros _. split; [constructor|]. intros k Hk. inversion Hk.
  - case_bool_decide as Hin.
    + split; [discriminate|]. intros [_ Hfresh]. destruct (Hfresh (order_id order)).
      * set_solver.
      * assumption.
    + rewrite IH, NoDup_cons. split.
      * intros [Hnd Hfresh]. split; [split; [|assumption]|].
        -- intros Hk. apply (Hfresh _ Hk). set_solver.
        -- intros k [->|Hk]%elem_of_cons; [assumption|].
           intros Hs. apply (Hfresh _ Hk). set_solver.
      * intros [[Hnotin Hnd] Hfresh]. split; [assumption|].
        intros k Hk [->%elem_of_singleton|Hs]%elem_of_union; [done|].
        apply (Hfresh k); [set_solver|assumption].
Qed.

Lemma orders_unique_from_Raise (v : list (OrderInput (num := num))) :
  ∀ (seen_id : gset Z) (e : ValueError),
    orders_unique_from seen_id v = Raise e → e = mkValueError "order_id must be unique".
Proof.
  induction v as [|order v IH]; intros seen_id e; simpl; [discriminate|].
  case_bool_decide; [congruence|]. apply IH.
Qed.

Lemma orders_unique_NoDup (v : list (OrderInput (num := num))) :
  NoDup (order_id <$> v) → orders_unique v = Return v.
Proof.
  intros Hnd. unfold orders_unique.
  destruct (orders_unique_from ∅ v) as [e|[]] eqn:Hloop; [|reflexivity].
  assert (orders_unique_from ∅ v = Return ()) as Hok.
  { apply orders_unique_from_Return. split; [assumption|set_solver]. }
  congruence.
Qed.

Lemma orders_unique_dup (v : list (OrderInput (num := num))) :
  ¬ NoDup (order_id <$> v) →
  orders_unique v = Raise (mkValueError "order_id must be unique").
Proof.
  intros Hdup. unfold orders_unique.
  destruct (orders_unique_from ∅ v) as [e|[]] eqn:Hloop.
  - by rewrite (orders_unique_from_Raise _ _ _ Hloop).
  - apply orders_unique_from_Return in Hloop as [Hnd _]. contradiction.
Qed.

Lemma orders_validate_Return (raw : list (RawOrder (num := num))) (v : list (OrderInput (num := num))) :
  orders_validate raw = Return v ↔
  Forall2 (λ x y, OrderInput_validate x = Return y) raw v ∧ NoDup (order_id <$> v).
Proof.
  unfold orders_validate.
  destruct (list_items OrderInput_validate 0 raw) as [es|v'] eqn:Hitems.
  - split; [discriminate|]. intros [Hall _].
    apply (list_items_Return _ _ 0) in Hall. congruence.
  - apply list_items_Return in Hitems.
    destruct (decide (NoDup (order_id <$> v'))) as [Hnd|Hdup].
    + rewrite (orders_unique_NoDup _ Hnd). split.
      * intros [= <-]. auto.
      * intros [Hall _]. by rewrite (validated_once _ _ _ _ Hitems Hall).
    + rewrite (orders_unique_dup _ Hdup). split; [discriminate|].
      intros [Hall Hnd]. destruct Hdup.
      by rewrite (validated_once _ _ _ _ Hitems Hall).
Qed.

Lemma RouteInput_validate_Return (raw : RawRouteInput (num := num)) (r : RouteInput (num := num)) :
  RouteInput_validate raw = Return r ↔
  (∃ rc, raw_vehicle_cluster_config raw = Some rc ∧
         ClusterConfig_validate rc = Return (vehicle_cluster_config r)) ∧
  (∃ rs, raw_solver_config raw = Some rs ∧
         SolverConfig_validate rs = Return (solver_config r)) ∧
  (∃ ros, raw_orders raw = Some ros ∧ orders_validate ros = Return (orders r)).
Proof.
  unfold RouteInput_validate.
  rewrite <- (field_Return "vehicle_cluster_config"), <- (field_Return "solver_config"),
    <- (field_Return "orders").
  split.
  - destruct (field "vehicle_cluster_config" _ _) as [|c]; [discriminate|].
    destruct (field "solver_config" _ _) as [|s]; [discriminate|].
    destruct (field "orders" _ _) as [|os]; [discriminate|].
    intros [= <-]. split_and!; reflexivity.
  - intros (-> & -> & ->). destruct r; reflexivity.
Qed.

(** A [RouteInput] is not made from a list with an order that is not an
    [OrderInput]. *)
Lemma RouteInput_rejects_bad_order (route : RawRouteInput (num := num))
    (ros : list (RawOrder (num := num))) raw :
  raw_orders route = Some ros → raw ∈ ros →
  (∀ o, OrderInput_validate raw ≠ Return o) →
  ∃ es, RouteInput_validate route = Raise es.
Proof.
  intros Hros Hin Hbad. apply not_Return_Raise. intros r Hr.
  apply RouteInput_validate_Return in Hr as (_ & _ & (ros' & Hros' & Hov)).
  assert (ros' = ros) as -> by congruence.
  apply orders_validate_Return in Hov as [Hall _].
  apply list_elem_of_lookup in Hin as [i Hi].
  destruct (Forall2_lookup_l _ _ _ _ _ Hall Hi) as (o & _ & Ho).
  exact (Hbad o Ho).
Qed.

Lemma RouteInput_rejects_duplicates (route : RawRouteInput (num := num))
    (ros : list (RawOrder (num := num))) :
  raw_orders route = Some ros → has_duplicate_id ros →
  ∃ es, RouteInput_validate route = Raise es.
Proof.
  intros Hros (i & j & r1 & r2 & k & Hij & Hi & Hj & Hk1 & Hk2).
  apply not_Return_Raise. intros r Hr.
  apply RouteInput_validate_Return in Hr as (_ & _ & (ros' & Hros' & Hov)).
  assert (ros' = ros) as -> by congruence.
  apply orders_validate_Return in Hov as [Hall Hnd].
  destruct (Forall2_lookup_l _ _ _ _ _ Hall Hi) as (o1 & Ho1 & Hv1).
  destruct (Forall2_lookup_l _ _ _ _ _ Hall Hj) as (o2 & Ho2 & Hv2).
  apply OrderInput_validate_Return in Hv1 as (Hid1 & _).
  apply OrderInput_validate_Return in Hv2 as (Hid2 & _).
  apply Hij, (NoDup_lookup _ i j k Hnd); rewrite list_lookup_fmap.
  - rewrite Ho1; simpl. congruence.
  - rewrite Ho2; simpl. congruence.
Qed.

Lemma RouteInput_reports_duplicates (route : RawRouteInput (num := num))
    (ros : list (RawOrder (num := num))) (v : list (OrderInput (num := num))) :
  raw_orders route = Some ros →
  Forall2 (λ x y, OrderInput_validate x = Return y) ros v →
  ¬ NoDup (order_id <$> v) →
  ∃ es, RouteInput_validate route = Raise es ∧
        mkError [Key "orders"] (value_error "order_id must be unique") ∈ es.
Proof.
  intros Hros Hall Hdup. unfold RouteInput_validate.
  assert (field "orders" orders_validate (raw_orders route)
          = Raise [mkError [Key "orders"] (value_error "order_id must be unique")]) as ->.
  { rewrite Hros. unfold field, orders_validate.
    apply (list_items_Return _ _ 0) in Hall. rewrite Hall.
    rewrite (orders_unique_dup _ Hdup). reflexivity. }
  destruct (field "vehicle_cluster_config" _ _), (field "solver_config" _ _); simpl;
    (eexists; split; [reflexivity|set_solver]).
Qed.

Lemma duplicate_ids (ros : list (RawOrder (num := num)))
    (v : list (OrderInput (num := num))) :
  Forall2 (λ x y, OrderInput_validate x = Return y) ros v →
  has_duplicate_id ros → ¬ NoDup (order_id <$> v).
Proof.
  intros Hall (i & j & r1 & r2 & k & Hij & Hi & Hj & Hk1 & Hk2) Hnd.
  destruct (Forall2_lookup_l _ _ _ _ _ Hall Hi) as (o1 & Ho1 & Hv1).
  destruct (Forall2_lookup_l _ _ _ _ _ Hall Hj) as (o2 & Ho2 & Hv2).
  apply OrderInput_validate_Return in Hv1 as (Hid1 & _).
  apply OrderInput_validate_Return in Hv2 as (Hid2 & _).
  apply Hij, (NoDup_lookup _ i j k Hnd); rewrite list_lookup_fmap.
  - rewrite Ho1; simpl. congruence.
  - rewrite Ho2; simpl. congruence.
Qed.

(** The validator of a field runs on the validated field: beside a record
    that is not an [OrderInput], [orders_unique] is not called, and the
    errors at [orders] are those of the records. *)
Lemma RouteInput_bad_order_errors (route : RawRouteInput (num := num))
    (ros : list (RawOrder (num := num))) raw (es : list ErrorDetails) (msg : string) :
  raw_orders route = Some ros → raw ∈ ros →
  (∀ o, OrderInput_validate raw ≠ Return o) →
  RouteInput_validate route = Raise es →
  mkError [Key "orders"] (value_error msg) ∉ es.
Proof.
  intros Hros Hin Hbad Hes He.
  assert (∃ es', list_items OrderInput_validate 0 ros = Raise es') as [es' Hitems].
  { apply not_Return_Raise. intros v Hv. apply list_items_Return in Hv.
    apply list_elem_of_lookup in Hin as [i Hi].
    destruct (Forall2_lookup_l _ _ _ _ _ Hv Hi) as (o & _ & Ho).
    exact (Hbad o Ho). }
  assert (field "orders" orders_validate (raw_orders route)
          = Raise (map (λ e, mkError (Key "orders" :: err_loc e) (err_type e)) es'))
    as Horders.
  { rewrite Hros. unfold field, orders_validate. rewrite Hitems. reflexivity. }
  unfold RouteInput_validate in Hes. rewrite Horders in Hes.
  assert (es = errors (field "vehicle_cluster_config" ClusterConfig_validate
                         (raw_vehicle_cluster_config route))
               ++ errors (field "solver_config" SolverConfig_validate
                            (raw_solver_config route))
               ++ map (λ e, mkError (Key "orders" :: err_loc e) (err_type e)) es')
    as ->.
  { destruct (field "vehicle_cluster_config" _ _), (field "solver_config" _ _);
      simpl in *; congruence. }
  apply elem_of_app in He as [He|[He|He]%elem_of_app].
  - apply field_errors_loc in He as [rest [= ]].
  - apply field_errors_loc in He as [rest [= ]].
  - apply list_elem_of_fmap in He as (e' & [= Hloc _] & He').
    destruct (list_items_errors_loc OrderInput_validate ros e' 0) as (j & rest & Hj).
    { by rewrite Hitems. }
    rewrite Hj in Hloc. discriminate.
Qed.

(** C2, amended. A [RouteInput] whose [orders] hold two records with one
    [order_id] is rejected when it is parsed.  The error is the validator's
    [ValueError] ("order_id must be unique") when every record is an
    [OrderInput]; beside a record that is not, the validator does not run
    and that error is not among those reported.  [orders_unique] itself
    raises the [ValueError] on every list with a repeated [order_id], and
    on a list of pairwise distinct [order_id]s it returns the list it was
    given. *)
Theorem orders_unique_rejects_duplicates_only :
  (∀ (route : RawRouteInput (num := num)) ros,
     raw_orders route = Some ros → has_duplicate_id ros →
     ∃ es, RouteInput_validate route = Raise es ∧
       ((∃ v, Forall2 (λ x y, OrderInput_validate x = Return y) ros v) →
        mkError [Key "orders"] (value_error "order_id must be unique") ∈ es) ∧
       ((∃ raw, raw ∈ ros ∧ ∀ o, OrderInput_validate raw ≠ Return o) →
        mkError [Key "orders"] (value_error "order_id must be unique") ∉ es)) ∧
  (∀ v : list (OrderInput (num := num)),
     ¬ NoDup (order_id <$> v) →
     orders_unique v = Raise (mkValueError "order_id must be unique")) ∧
  (∀ v : list (OrderInput (num := num)),
     NoDup (order_id <$> v) → orders_unique v = Return v).
Proof.
  split_and!.
  - intros route ros Hros Hdup.
    destruct (RouteInput_rejects_duplicates route ros Hros Hdup) as [es Hes].
    exists es. split_and!; [assumption| |].
    + intros [v Hall].
      destruct (RouteInput_reports_duplicates route ros v Hros Hall
                  (duplicate_ids ros v Hall Hdup)) as (es' & Hes' & Hin).
      congruence.
    + intros (raw & Hin & Hbad).
      exact (RouteInput_bad_order_errors route ros raw es _ Hros Hin Hbad Hes).
  - apply orders_unique_dup.
  - apply orders_unique_NoDup.
Qed.

(** C8. An [OrderInput] is made only from an [order_id] of at least 0; a
    record with a negative [order_id] is rejected, with an error at that
    field, and so is every [RouteInput] that holds such a record, whatever
    the other [order_id]s are. *)
Theorem OrderInput_order_id_nonnegative raw :
  (∀ o, OrderInput_validate raw = Return o →
        raw_order_id raw = Some (order_id o) ∧ (0 ≤ order_id o)%Z) ∧
  (∀ k, raw_order_id raw = Some k → (k < 0)%Z →
        (∃ es, OrderInput_validate raw = Raise es ∧
               mkError [Key "order_id"] greater_than_equal ∈ es) ∧
        (∀ (route : RawRouteInput (num := num)) ros,
           raw_orders route = Some ros → raw ∈ ros →
           ∃ es, RouteInput_validate route = Raise es)).
Proof.
  split.
  - intros o (? & ? & _)%OrderInput_validate_Return. auto.
  - intros k Hk Hneg.
    assert (∃ es, OrderInput_validate raw = Raise es ∧
                  mkError [Key "order_id"] greater_than_equal ∈ es) as Hrej.
    { apply OrderInput_validate_Raise. rewrite Hk. unfold field, order_id_field.
      rewrite int_bound_Raise by lia. simpl. set_solver. }
    split; [exact Hrej|]. intros route ros Hros Hin.
    apply (RouteInput_rejects_bad_order route ros raw Hros Hin).
    intros o Ho. destruct Hrej as (es & Hes & _). congruence.
Qed.

End Models.

(** The theorems above, on the inputs of [Examples]. *)

Ltac outside := intros [Hlo Hhi]; vm_compute in Hlo, Hhi; discriminate.

Lemma OrderInput_lat_lon_in_range_witness :
  (raw_lat order_16 = Some (lat (parsed order_16)) ∧
   raw_lon order_16 = Some (lon (parsed order_16)) ∧
   within (-90) 90 (lat (parsed order_16)) ∧
   within (-180) 180 (lon (parsed order_16))) ∧
  (∃ es, OrderInput_validate order_north_of_pole = Raise es ∧
         ∃ e, e ∈ es ∧ err_loc e = [Key "lat"]) ∧
  (∃ es, OrderInput_validate order_past_date_line = Raise es ∧
         ∃ e, e ∈ es ∧ err_loc e = [Key "lon"]).
Proof.
  split; [|split].
  - apply (proj1 (OrderInput_lat_lon_in_range order_16) (parsed order_16)).
    reflexivity.
  - apply (proj1 (proj2 (OrderInput_lat_lon_in_range order_north_of_pole)) 90.5%float);
      [reflexivity|outside].
  - apply (proj2 (proj2 (OrderInput_lat_lon_in_range order_past_date_line))
             (-180.5)%float); [reflexivity|outside].
Defined.

(** Not a number is not in the range: it fails the upper bound, which is
    the first one tested. *)
Example NaN_latitude_refused :
  OrderInput_validate (mkRawOrder (Some 1%Z) (Some nan) (Some 0%float))
  = Raise [mkError [Key "lat"] less_than_equal].
Proof. reflexivity. Qed.

(** Every error of every field is reported, in the order of the fields. *)
Example errors_are_collected :
  RouteInput_validate
    (mkRawRouteInput (Some (mkRawClusterConfig None ∅)) (Some (solver 0))
       (Some [order_north_of_pole; mkRawOrder None (Some 0%float) (Some 181%float)]))
  = Raise [mkError [Key "vehicle_cluster_config"; Key "type"] missing;
           mkError [Key "solver_config"; Key "max_solve_size"] greater_than_equal;
           mkError [Key "orders"; Index 0; Key "lat"] less_than_equal;
           mkError [Key "orders"; Index 1; Key "order_id"] missing;
           mkError [Key "orders"; Index 1; Key "lon"] less_than_equal].
Proof. reflexivity. Qed.

Lemma SolverConfig_max_solve_size_at_least_1_witness :
  (raw_max_solve_size (solver 1) = Some 1%Z ∧ (1 ≤ 1)%Z) ∧
  (∃ es, SolverConfig_validate (solver 0) = Raise es ∧
         mkError [Key "max_solve_size"] greater_than_equal ∈ es) ∧
  (∃ es, SolverConfig_validate (solver (-3)) = Raise es ∧
         mkError [Key "max_solve_size"] greater_than_equal ∈ es).
Proof.
  split; [|split].
  - apply (proj1 (SolverConfig_max_solve_size_at_least_1 (solver 1))
             (mkSolverConfig "brute" "haversine" 1)). reflexivity.
  - apply (proj2 (SolverConfig_max_solve_size_at_least_1 (solver 0)) 0%Z);
      [reflexivity|lia].
  - apply (proj2 (SolverConfig_max_solve_size_at_least_1 (solver (-3))) (-3)%Z);
      [reflexivity|lia].
Defined.

Lemma OrderInput_order_id_nonnegative_witness :
  (raw_order_id order_16 = Some 16%Z ∧ (0 ≤ 16)%Z) ∧
  (∃ es, OrderInput_validate order_negative_id = Raise es ∧
         mkError [Key "order_id"] greater_than_equal ∈ es) ∧
  (∃ es, RouteInput_validate Negative = Raise es).
Proof.
  split; [|split].
  - apply (proj1 (OrderInput_order_id_nonnegative order_16) (parsed order_16)).
    reflexivity.
  - apply (proj2 (OrderInput_order_id_nonnegative order_negative_id) (-1)%Z);
      [reflexivity|lia].
  - apply (proj2 (proj2 (OrderInput_order_id_nonnegative order_negative_id) (-1)%Z
                    eq_refl eq_refl)
             Negative [order_16; order_negative_id]); [reflexivity|].
    apply list_elem_of_lookup. exists 1. reflexivity.
Defined.

Lemma Repeated_has_duplicate_id :
  has_duplicate_id [order_16; order_17; order_16_again].
Proof. exists 0, 2, order_16, order_16_again, 16%Z. split_and!; done. Qed.

Lemma Repeated_orders_valid :
  Forall2 (λ x y, OrderInput_validate x = Return y)
    [order_16; order_17; order_16_again]
    [parsed order_16; parsed order_17; parsed order_16_again].
Proof. repeat constructor. Qed.

Lemma Repeated_and_north_has_duplicate_id :
  has_duplicate_id [order_16; order_16_again; order_north_of_pole].
Proof. exists 0, 1, order_16, order_16_again, 16%Z. split_and!; done. Qed.

(** C2, counterexample. Two records have the [order_id] 16 and a third
    one has the latitude 90.5: the input is rejected for the latitude
    alone, and no [ValueError] ("order_id must be unique") is raised. *)
Lemma duplicate_unreported_beside_bad_record :
  has_duplicate_id [order_16; order_16_again; order_north_of_pole] ∧
  raw_orders Repeated_and_north
  = Some [order_16; order_16_again; order_north_of_pole] ∧
  RouteInput_validate Repeated_and_north
  = Raise [mkError [Key "orders"; Index 2; Key "lat"] less_than_equal].
Proof.
  split; [apply Repeated_and_north_has_duplicate_id|]. split; reflexivity.
Qed.

Lemma orders_unique_rejects_duplicates_only_witness :
  (∃ es, RouteInput_validate Repeated = Raise es ∧
         mkError [Key "orders"] (value_error "order_id must be unique") ∈ es) ∧
  (∃ es, RouteInput_validate Repeated_and_north = Raise es ∧
         mkError [Key "orders"] (value_error "order_id must be unique") ∉ es) ∧
  orders_unique [parsed order_16; parsed order_17; parsed order_16_again]
    = Raise (mkValueError "order_id must be unique") ∧
  orders_unique [parsed order_16; parsed order_17]
    = Return [parsed order_16; parsed order_17].
Proof.
  destruct (orders_unique_rejects_duplicates_only (AR := binary64))
    as (Hrejects & Hraises & Hreturns).
  split_and!.
  - destruct (Hrejects Repeated [order_16; order_17; order_16_again] eq_refl
                Repeated_has_duplicate_id) as (es & Hes & Hreports & _).
    exists es. split; [assumption|]. apply Hreports.
    eexists. apply Repeated_orders_valid.
  - destruct (Hrejects Repeated_and_north
                [order_16; order_16_again; order_north_of_pole] eq_refl
                Repeated_and_north_has_duplicate_id) as (es & Hes & _ & Hhides).
    exists es. split; [assumption|]. apply Hhides.
    exists order_north_of_pole. split; [set_solver|]. intros o. discriminate.
  - apply Hraises.
    intros Hnd. apply NoDup_cons in Hnd as [Hnotin _]. apply Hnotin. set_solver.
  - apply Hreturns. simpl. repeat (apply NoDup_cons; split; [set_solver|]).
    apply NoDup_nil. done.
Defined.

End PydanticFacts.

Module ProjectionFacts.
Import Pydantic Python Examples.

Section Generic.
Context {num : Type} {AR : Arith num}.
Implicit Types (w : World (num := num)) (la lo : loc).

Lemma Py_bind_eq {A B} (m : Py A) (k : A → Py B) w :
  (m ≫= k) w =
    match m w with
    | (Return a, w') => k a w'
    | (Raise e, w') => (Raise e, w')
    end.
Proof. reflexivity. Qed.

Lemma new_list_eq (l : list num) w :
  new_list l w =
    (Return (fresh (dom (heap w))),
     mkWorld (<[fresh (dom (heap w)) := l]> (heap w)) (files w) (erp_calls w)).
Proof. reflexivity. Qed.

(** What a call computes and leaves, in one equation. *)
Lemma equi_rect_project_run la lo w :
  equi_rect_project la lo w =
    (Return (spec_latitude <$> heap w !!! la, spec_longitude <$> heap w !!! lo), w).
Proof.
  unfold equi_rect_project, mbind, Py_bind, np_array, mret, Py_ret; simpl.
  rewrite <- !list_fmap_compose. reflexivity.
Qed.

Lemma projected_eq (latitudes longitudes : list num) :
  projected latitudes longitudes =
    Return (spec_latitude <$> latitudes, spec_longitude <$> longitudes).
Proof.
  unfold projected.
  rewrite Py_bind_eq, new_list_eq, Py_bind_eq, new_list_eq, equi_rect_project_run.
  cbn [fst heap].
  set (a := fresh (dom (∅ : gmap loc (list num)))).
  set (b := fresh (dom (<[a := latitudes]> (∅ : gmap loc (list num))))).
  assert (b ≠ a) as Hne.
  { intros Heq. apply (is_fresh (dom (<[a := latitudes]> (∅ : gmap loc (list num))))).
    fold b. rewrite Heq. set_solver. }
  rewrite lookup_total_insert_eq, lookup_total_insert_ne by done.
  rewrite lookup_total_insert_eq. reflexivity.
Qed.

(** C1. For all lists of latitudes and of longitudes, [equi_rect_project]
    returns a pair of arrays whose entry [i] is
    [6371 * radians(lat_i)], respectively
    [6371 * radians(lon_i) * cos(radians(-31.952258602714696))]. *)
Theorem equi_rect_project_elementwise la lo w (latitudes longitudes : list num) :
  heap w !! la = Some latitudes →
  heap w !! lo = Some longitudes →
  ∃ ys xs : list num,
    fst (equi_rect_project la lo w) = Return (ys, xs) ∧
    (∀ i, ys !! i = spec_latitude <$> latitudes !! i) ∧
    (∀ i, xs !! i = spec_longitude <$> longitudes !! i).
Proof.
  intros Hla Hlo. rewrite equi_rect_project_run; simpl.
  rewrite (lookup_total_correct _ _ _ Hla), (lookup_total_correct _ _ _ Hlo).
  eexists _, _. split; [reflexivity|].
  split; intros i; apply list_lookup_fmap.
Qed.

(** C9. On two lists of one length [n] the call returns two arrays of
    length [n]; on two empty lists, two empty arrays. *)
Theorem equi_rect_project_lengths la lo w (latitudes longitudes : list num) (n : nat) :
  heap w !! la = Some latitudes →
  heap w !! lo = Some longitudes →
  length latitudes = n → length longitudes = n →
  ∃ ys xs : list num,
    fst (equi_rect_project la lo w) = Return (ys, xs) ∧
    length ys = n ∧ length xs = n ∧
    (n = 0 → ys = [] ∧ xs = []).
Proof.
  intros Hla Hlo Hn Hm. rewrite equi_rect_project_run; simpl.
  rewrite (lookup_total_correct _ _ _ Hla), (lookup_total_correct _ _ _ Hlo).
  eexists _, _. split; [reflexivity|].
  rewrite !length_fmap. split; [done|]. split; [done|].
  intros ->. rewrite (nil_length_inv _ Hn), (nil_length_inv _ Hm). done.
Qed.

End Generic.

Lemma equi_rect_project_elementwise_witness :
  ∃ ys xs : list float,
    fst (equi_rect_project (AR := binary64) 1%positive 2%positive two_lists)
      = Return (ys, xs) ∧
    (∀ i, ys !! i
          = spec_latitude (AR := binary64)
              <$> [5; 10; 15]%float !! i) ∧
    (∀ i, xs !! i
          = spec_longitude (AR := binary64)
              <$> [115.8; 116; 116.2]%float !! i).
Proof.
  apply (equi_rect_project_elementwise (AR := binary64)
           1%positive 2%positive two_lists); reflexivity.
Defined.

Lemma equi_rect_project_lengths_witness :
  (∃ ys xs : list float,
     fst (equi_rect_project (AR := binary64) 1%positive 2%positive two_lists)
       = Return (ys, xs) ∧
     length ys = 3 ∧ length xs = 3 ∧ (3 = 0 → ys = [] ∧ xs = [])) ∧
  (∃ ys xs : list float,
     fst (equi_rect_project (AR := binary64) 1%positive 1%positive one_empty_list)
       = Return (ys, xs) ∧
     length ys = 0 ∧ length xs = 0 ∧ (0 = 0 → ys = [] ∧ xs = [])).
Proof.
  split.
  - apply (equi_rect_project_lengths (AR := binary64)
             1%positive 2%positive two_lists [5; 10; 15]%float [115.8; 116; 116.2]%float 3);
      reflexivity.
  - apply (equi_rect_project_lengths (AR := binary64)
             1%positive 1%positive one_empty_list [] [] 0); reflexivity.
Defined.

Example DEG2RAD_value : Float64.DEG2RAD = 0.017453292519943295%float.
Proof. reflexivity. Qed.

(** One degree of latitude is 111.19 km, one degree of longitude at the
    reference latitude 94.35 km. *)
Example projected_one_degree :
  projected [1; 5; 10; 15]%float [1]%float
  = Return ([111.19492664455873; 555.97463322279361; 1111.9492664455872;
             1667.923899668381]%float,
            [94.34771148311481]%float).
Proof. rewrite projected_eq. reflexivity. Qed.

(** Two binary64 numbers that [=?] tells apart are not the same number. *)
Lemma float_neq (x y : float) : (x =? y)%float = false → (x =? x)%float = true → x ≠ y.
Proof. intros Hxy Hxx ->. rewrite Hxx in Hxy. discriminate. Qed.

(** C6, counterexample. In binary64 the latitudes 5, 10, 15 are equally
    spaced and their projections are not, whatever the cosine: the
    differences are 555.9746332227936 and 555.9746332227937. *)
Lemma equal_spacing_fails_in_binary64 :
  (10 - 5 = 15 - 10)%float ∧
  ∀ cos : float → float,
    ∃ (pa pb pc : float) (xs : list float),
      projected (AR := Float64.arith cos) [5; 10; 15]%float [] = Return ([pa; pb; pc], xs) ∧
      (pb - pa)%float ≠ (pc - pb)%float.
Proof.
  split; [reflexivity|]. intros cos.
  rewrite projected_eq.
  eexists _, _, _, _. split; [reflexivity|].
  apply float_neq; vm_compute; reflexivity.
Qed.

(** C6, amended. In exact arithmetic the projection is linear in each
    coordinate: equally spaced latitudes have equally spaced projections,
    and so have equally spaced longitudes. *)
Theorem equal_spacing_exact (a b c a' b' c' : R) :
  (b - a = c - b)%R →
  (b' - a' = c' - b')%R →
  ∃ pa pb pc qa qb qc : R,
    projected (AR := Exact.arith) [a; b; c] [a'; b'; c']
      = Return ([pa; pb; pc], [qa; qb; qc]) ∧
    (pb - pa = pc - pb)%R ∧
    (qb - qa = qc - qb)%R.
Proof.
  intros Hlat Hlon. rewrite projected_eq.
  eexists _, _, _, _, _, _. split; [reflexivity|].
  unfold spec_latitude, spec_longitude, mul, np_radians, np_cos, lit, Exact.arith.
  generalize (Exact.float_to_R 6371) as r.
  generalize (Rtrigo_def.cos (Exact.float_to_R (-31.952258602714696) * (PI / 180))) as k.
  intros k r.
  assert (c = 2 * b - a)%R as -> by lra.
  assert (c' = 2 * b' - a')%R as -> by lra.
  split; ring.
Qed.

Lemma equal_spacing_exact_witness :
  ∃ pa pb pc qa qb qc : R,
    projected (AR := Exact.arith) [0; 1; 2]%R [115; 116; 117]%R
      = Return ([pa; pb; pc], [qa; qb; qc]) ∧
    (pb - pa = pc - pb)%R ∧
    (qb - qa = qc - qb)%R.
Proof.
  apply (equal_spacing_exact 0 1 2 115 116 117); lra.
Defined.

(** *** The projection and [warnings] *)

Section Warned.
Context {num : Type} {AR : Arith num} {FE : FloatErrors num}.
Implicit Types (p : Warnings.Process (num := num)) (la lo : loc).

Lemma check_flags_run (multiplied : list (num * num)) p :
  Warnings.check_flags multiplied p
  = (Return (),
     Warnings.mkProcess (Warnings.store p)
       (Warnings.warned p ++ Warnings.raised multiplied)).
Proof.
  unfold Warnings.check_flags, Warnings.raised, mbind, Warnings.Np_bind.
  destruct (existsb _ multiplied), (existsb _ multiplied);
    unfold Warnings.warnings_warn, mret, Warnings.Np_ret; simpl;
    rewrite ?app_nil_r, <- ?app_assoc; by destruct p.
Qed.

Lemma number_times_run (x : num) (ys : list num) p :
  Warnings.number_times x ys p
  = (Return (mul x <$> ys),
     Warnings.mkProcess (Warnings.store p)
       (Warnings.warned p ++ Warnings.raised ((λ y, (x, y)) <$> ys))).
Proof.
  unfold Warnings.number_times, mbind, Warnings.Np_bind.
  by rewrite check_flags_run.
Qed.

Lemma times_number_run (xs : list num) (y : num) p :
  Warnings.times_number xs y p
  = (Return ((λ x, mul x y) <$> xs),
     Warnings.mkProcess (Warnings.store p)
       (Warnings.warned p ++ Warnings.raised ((λ x, (x, y)) <$> xs))).
Proof.
  unfold Warnings.times_number, mbind, Warnings.Np_bind.
  by rewrite check_flags_run.
Qed.

(** What a call computes, and what it leaves. *)
Lemma warned_equi_rect_project_run la lo p :
  Warnings.equi_rect_project la lo p
  = (Return (spec_latitude <$> heap (Warnings.store p) !!! la,
             spec_longitude <$> heap (Warnings.store p) !!! lo),
     Warnings.mkProcess (Warnings.store p)
       (Warnings.warned p
        ++ Warnings.issued (heap (Warnings.store p) !!! la)
             (heap (Warnings.store p) !!! lo))).
Proof.
  unfold Warnings.equi_rect_project, Warnings.issued.
  unfold mbind at 1 2. unfold Warnings.Np_bind at 1 2.
  unfold Warnings.quiet, np_array. cbn [Warnings.store Warnings.warned].
  unfold mbind, Warnings.Np_bind.
  rewrite number_times_run; cbn [Warnings.store Warnings.warned].
  rewrite times_number_run; cbn [Warnings.store Warnings.warned].
  rewrite number_times_run; cbn [Warnings.store Warnings.warned].
  unfold mret, Warnings.Np_ret. rewrite <- !list_fmap_compose, <- !app_assoc.
  reflexivity.
Qed.

(** With the warnings forgotten, the call is that of [Python]. *)
Lemma warned_equi_rect_project_quiet la lo p :
  (fst (Warnings.equi_rect_project la lo p),
   Warnings.store (snd (Warnings.equi_rect_project la lo p)))
  = equi_rect_project la lo (Warnings.store p).
Proof. by rewrite warned_equi_rect_project_run, equi_rect_project_run. Qed.

Lemma existsb_elem {A} (f : A → bool) (l : list A) :
  existsb f l = true ↔ ∃ x, x ∈ l ∧ f x = true.
Proof.
  rewrite existsb_exists. split; intros (x & Hx & Hf); exists x;
    (split; [by apply list_elem_of_In|assumption]).
Qed.

Lemma raised_elem (multiplied : list (num * num)) (w : Warnings.Warning) :
  w ∈ Warnings.raised multiplied ↔
  (w = Warnings.overflow_in_multiply ∧
   ∃ x y, (x, y) ∈ multiplied ∧ mul_overflow x y = true) ∨
  (w = Warnings.invalid_in_multiply ∧
   ∃ x y, (x, y) ∈ multiplied ∧ mul_invalid x y = true).
Proof.
  unfold Warnings.raised. rewrite elem_of_app.
  assert (∀ (f : num → num → bool) (w' : Warnings.Warning),
            w ∈ (if existsb (λ xy, f xy.1 xy.2) multiplied then [w'] else []) ↔
            w = w' ∧ ∃ x y, (x, y) ∈ multiplied ∧ f x y = true) as Hone.
  { intros f w'. destruct (existsb _ multiplied) eqn:Hany.
    - apply existsb_elem in Hany as ([x y] & Hin & Hf).
      rewrite list_elem_of_singleton. split; [|tauto]. intros ->. eauto.
    - split; [by intros ?%elem_of_nil|]. intros (_ & x & y & Hin & Hf).
      assert (existsb (λ xy, f xy.1 xy.2) multiplied = true) as Hyes
        by (apply existsb_elem; by exists (x, y)).
      congruence. }
  by rewrite !Hone.
Qed.

Lemma issued_elem (latitudes longitudes : list num) (w : Warnings.Warning) :
  w ∈ Warnings.issued latitudes longitudes ↔
  (w = Warnings.overflow_in_multiply ∧
   ∃ x y, (x, y) ∈ Warnings.multiplied latitudes longitudes ∧ mul_overflow x y = true) ∨
  (w = Warnings.invalid_in_multiply ∧
   ∃ x y, (x, y) ∈ Warnings.multiplied latitudes longitudes ∧ mul_invalid x y = true).
Proof.
  unfold Warnings.issued, Warnings.multiplied.
  rewrite !elem_of_app, !raised_elem. setoid_rewrite elem_of_app.
  setoid_rewrite elem_of_app. naive_solver.
Qed.

Lemma raised_nil (multiplied : list (num * num)) :
  Forall (λ xy, mul_overflow xy.1 xy.2 = false ∧ mul_invalid xy.1 xy.2 = false)
    multiplied →
  Warnings.raised multiplied = [].
Proof.
  assert (∀ f : num → num → bool,
            Forall (λ xy, f xy.1 xy.2 = false) multiplied →
            existsb (λ xy, f xy.1 xy.2) multiplied = false) as Hnone.
  { intros f Hf. induction Hf as [|xy l Hxy _ IH]; [done|].
    cbn [existsb]. by rewrite Hxy, IH. }
  intros Hall. unfold Warnings.raised.
  rewrite !Hnone; [done| |].
  - eapply Forall_impl; [exact Hall|]. by intros xy [_ ?].
  - eapply Forall_impl; [exact Hall|]. by intros xy [? _].
Qed.

End Warned.

(** A finite product has finite factors, and has set no flag. *)
Lemma finite_product (x y : float) :
  Float64.finite (x * y) = true →
  Float64.finite x = true ∧ Float64.finite y = true.
Proof.
  unfold Float64.finite. rewrite mul_spec.
  destruct (Prim2SF x), (Prim2SF y); simpl; intros H; try discriminate; by split.
Qed.

Lemma finite_no_error (x y : float) :
  Float64.finite (x * y) = true →
  mul_overflow (FloatErrors := Float64.fp_errors) x y = false ∧
  mul_invalid (FloatErrors := Float64.fp_errors) x y = false.
Proof.
  intros H. simpl.
  assert (Float64.infinite (x * y) = false ∧ Float64.not_a_number (x * y) = false)
    as [-> ->].
  { unfold Float64.finite, Float64.infinite, Float64.not_a_number in *.
    destruct (Prim2SF (x * y)); try discriminate; by split. }
  by rewrite !andb_false_r.
Qed.

(** In binary64 a call that returns finite numbers alone has raised no
    warning. *)
Lemma finite_issued_nil (cos : float → float) (latitudes longitudes : list float) :
  Forall (λ x, Float64.finite x = true)
    (spec_latitude (AR := Float64.arith cos) <$> latitudes) →
  Forall (λ x, Float64.finite x = true)
    (spec_longitude (AR := Float64.arith cos) <$> longitudes) →
  Warnings.issued (AR := Float64.arith cos) (FE := Float64.fp_errors)
    latitudes longitudes = [].
Proof.
  intros Hlat Hlon. apply Forall_fmap in Hlat, Hlon. unfold Warnings.issued.
  rewrite !raised_nil; [done| | |]; apply Forall_fmap.
  - eapply Forall_impl; [exact Hlat|]. intros x Hx. by apply finite_no_error.
  - eapply Forall_impl; [exact Hlon|]. intros x Hx. by apply finite_no_error.
  - eapply Forall_impl; [exact Hlon|]. intros x Hx.
    apply finite_no_error. by apply finite_product in Hx as [Hx _].
Qed.

(** C5, amended. The arrays a call returns are a function of the contents
    of the two lists alone, and so are the warnings it raises; the call
    leaves the list objects, the files and the history as it found them.
    A warning is raised exactly for a flag that one of the multiplications
    has set: overflow, or invalid.  None is raised in binary64 when every
    number returned is finite, and none in exact arithmetic. *)
Theorem equi_rect_project_pure :
  (∀ (num : Type) (AR : Arith num) (FE : FloatErrors num)
     la1 lo1 (p1 : Warnings.Process (num := num))
     la2 lo2 (p2 : Warnings.Process (num := num))
     (latitudes longitudes : list num),
     heap (Warnings.store p1) !! la1 = Some latitudes →
     heap (Warnings.store p2) !! la2 = Some latitudes →
     heap (Warnings.store p1) !! lo1 = Some longitudes →
     heap (Warnings.store p2) !! lo2 = Some longitudes →
     ∃ out ws,
       Warnings.equi_rect_project la1 lo1 p1
       = (Return out,
          Warnings.mkProcess (Warnings.store p1) (Warnings.warned p1 ++ ws)) ∧
       Warnings.equi_rect_project la2 lo2 p2
       = (Return out,
          Warnings.mkProcess (Warnings.store p2) (Warnings.warned p2 ++ ws)) ∧
       ∀ w, w ∈ ws ↔
         (w = Warnings.overflow_in_multiply ∧
          ∃ x y, (x, y) ∈ Warnings.multiplied latitudes longitudes ∧
                 mul_overflow x y = true) ∨
         (w = Warnings.invalid_in_multiply ∧
          ∃ x y, (x, y) ∈ Warnings.multiplied latitudes longitudes ∧
                 mul_invalid x y = true)) ∧
  (∀ (cos : float → float) la lo (p p' : Warnings.Process (num := float))
     (ys xs : list float),
     Warnings.equi_rect_project (AR := Float64.arith cos) (FE := Float64.fp_errors)
       la lo p = (Return (ys, xs), p') →
     Forall (λ x, Float64.finite x = true) (ys ++ xs) →
     p' = p) ∧
  (∀ la lo (p : Warnings.Process (num := R)),
     ∃ out,
       Warnings.equi_rect_project (AR := Exact.arith) (FE := Exact.fp_errors) la lo p
       = (Return out, p)).
Proof.
  split_and!.
  - intros num AR FE la1 lo1 p1 la2 lo2 p2 latitudes longitudes H1 H2 H3 H4.
    rewrite !warned_equi_rect_project_run.
    rewrite (lookup_total_correct _ _ _ H1), (lookup_total_correct _ _ _ H2),
      (lookup_total_correct _ _ _ H3), (lookup_total_correct _ _ _ H4).
    eexists _, _. split_and!; [reflexivity..|]. apply issued_elem.
  - intros cos la lo p p' ys xs Hrun [Hys Hxs]%Forall_app.
    rewrite warned_equi_rect_project_run in Hrun.
    injection Hrun as <- <- <-.
    rewrite finite_issued_nil by assumption. rewrite app_nil_r. by destruct p.
  - intros la lo p. rewrite warned_equi_rect_project_run.
    eexists. f_equal. destruct p as [w ws]; simpl. f_equal.
    unfold Warnings.issued, Warnings.raised; simpl.
    assert (∀ l : list (R * R), existsb (λ _, false) l = false) as Hnone
      by (induction l; done).
    rewrite !Hnone. by rewrite app_nil_r.
Qed.

(** C5, counterexample. On a latitude of 1e308 degrees the product with
    the radius overflows: the call returns an infinity and has raised a
    [RuntimeWarning], so that it leaves more than its result. *)
Lemma equi_rect_project_warns_on_overflow :
  Warnings.equi_rect_project (FE := Float64.fp_errors) 1%positive 2%positive
    (Warnings.mkProcess one_huge_latitude [])
  = (Return ([infinity], []),
     Warnings.mkProcess one_huge_latitude [Warnings.overflow_in_multiply]).
Proof. vm_compute. reflexivity. Qed.

Lemma equi_rect_project_pure_witness :
  (∃ out ws,
     Warnings.equi_rect_project (FE := Float64.fp_errors) 1%positive 2%positive
       (Warnings.mkProcess two_lists [])
     = (Return out, Warnings.mkProcess two_lists ([] ++ ws)) ∧
     Warnings.equi_rect_project (FE := Float64.fp_errors) 9%positive 7%positive
       (Warnings.mkProcess two_lists_elsewhere [Warnings.overflow_in_multiply])
     = (Return out,
        Warnings.mkProcess two_lists_elsewhere ([Warnings.overflow_in_multiply] ++ ws)) ∧
     ∀ w, w ∈ ws ↔
       (w = Warnings.overflow_in_multiply ∧
        ∃ x y, (x, y) ∈ Warnings.multiplied (AR := binary64)
                          [5; 10; 15]%float [115.8; 116; 116.2]%float ∧
               mul_overflow (FloatErrors := Float64.fp_errors) x y = true) ∨
       (w = Warnings.invalid_in_multiply ∧
        ∃ x y, (x, y) ∈ Warnings.multiplied (AR := binary64)
                          [5; 10; 15]%float [115.8; 116; 116.2]%float ∧
               mul_invalid (FloatErrors := Float64.fp_errors) x y = true)) ∧
  snd (Warnings.equi_rect_project (FE := Float64.fp_errors) 1%positive 2%positive
         (Warnings.mkProcess two_lists []))
  = Warnings.mkProcess two_lists [].
Proof.
  destruct equi_rect_project_pure as (Hsame & Hfinite & _). split.
  - apply (Hsame float binary64 Float64.fp_errors
             1%positive 2%positive (Warnings.mkProcess two_lists [])
             9%positive 7%positive
             (Warnings.mkProcess two_lists_elsewhere [Warnings.overflow_in_multiply])
             [5; 10; 15]%float [115.8; 116; 116.2]%float); reflexivity.
  - destruct (Warnings.equi_rect_project (FE := Float64.fp_errors) 1%positive 2%positive
                (Warnings.mkProcess two_lists [])) as [[e|[ys xs]] p'] eqn:Hrun;
      [vm_compute in Hrun; discriminate|].
    simpl. apply (Hfinite Float64.cos_centre 1%positive 2%positive _ p' ys xs Hrun).
    vm_compute in Hrun. injection Hrun as <- <- <-.
    repeat (constructor; [reflexivity|]). constructor.
Defined.

End ProjectionFacts.


Module DriverFacts.
Import Pydantic Python Examples PydanticFacts ProjectionFacts.

Section Drivers.
Context {num : Type} {AR : Arith num}.
Implicit Types (w : World (num := num)) (raw : RawRouteInput (num := num))
  (locations : RouteInput (num := num)).

Lemma json_load_eq (path : string) w :
  json_load path w =
    match files w !! path with
    | Some content => (Return content, w)
    | None => (Raise (FileNotFoundError path), w)
    end.
Proof. reflexivity. Qed.

(** The comprehensions and the call, followed by whatever comes next. *)
Lemma project_orders_run {B} w locations (k : list num * list num → Py B) :
  (lats ← new_list (lat <$> orders locations);
   longs ← new_list (lon <$> orders locations);
   erp_equi_rect_project lats longs ≫= k) w
  = k (spec_latitude <$> (lat <$> orders locations),
       spec_longitude <$> (lon <$> orders locations))
      (after_projection w locations).
Proof.
  rewrite Py_bind_eq, new_list_eq, Py_bind_eq, new_list_eq. cbn [heap files erp_calls].
  unfold erp_equi_rect_project. rewrite !Py_bind_eq. cbn [heap files erp_calls].
  rewrite equi_rect_project_run. cbn [heap files erp_calls]. unfold after_projection.
  set (a := fresh (dom (heap w))).
  set (b := fresh (dom (<[a := lat <$> orders locations]> (heap w)))).
  assert (b ≠ a) as Hne.
  { intros Heq. apply (is_fresh (dom (<[a := lat <$> orders locations]> (heap w)))).
    fold b. rewrite Heq. set_solver. }
  rewrite lookup_total_insert_eq, lookup_total_insert_ne by done.
  rewrite lookup_total_insert_eq. reflexivity.
Qed.

Lemma RouteInput_new_eq (content : json) w :
  RouteInput_new content w =
    match content with
    | JArray _ => (Raise TypeError, w)
    | JObject raw =>
        match RouteInput_validate raw with
        | Raise es => (Raise (ValidationError es), w)
        | Return locations => (Return locations, w)
        end
    end.
Proof.
  destruct content as [raw|]; simpl; [|reflexivity].
  destruct (RouteInput_validate raw); reflexivity.
Qed.

(** [reformat], case by case. *)
Lemma reformat_run (locations_path routes_path : string) w :
  reformat locations_path routes_path w =
    match files w !! locations_path, files w !! routes_path with
    | None, _ => (Raise (FileNotFoundError locations_path), w)
    | Some _, None => (Raise (FileNotFoundError routes_path), w)
    | Some (JArray _), Some _ => (Raise TypeError, w)
    | Some (JObject raw), Some routes =>
        match RouteInput_validate raw with
        | Raise es => (Raise (ValidationError es), w)
        | Return locations =>
            (Return (spec_latitude <$> (lat <$> orders locations),
                     spec_longitude <$> (lon <$> orders locations),
                     orders_dict (orders locations), routes),
             after_projection w locations)
        end
    end.
Proof.
  unfold reformat. rewrite Py_bind_eq, json_load_eq.
  destruct (files w !! locations_path) as [content|]; [|reflexivity].
  rewrite Py_bind_eq, json_load_eq.
  destruct (files w !! routes_path) as [routes|]; [|by destruct content].
  rewrite Py_bind_eq, RouteInput_new_eq.
  destruct content as [raw|]; [|reflexivity].
  destruct (RouteInput_validate raw) as [es|locations]; [reflexivity|].
  rewrite project_orders_run. reflexivity.
Qed.

Lemma reformat_locations_run (locations_path : string) w :
  reformat_locations locations_path w =
    match files w !! locations_path with
    | None => (Raise (FileNotFoundError locations_path), w)
    | Some (JArray _) => (Raise TypeError, w)
    | Some (JObject raw) =>
        match RouteInput_validate raw with
        | Raise es => (Raise (ValidationError es), w)
        | Return locations =>
            (Return (spec_latitude <$> (lat <$> orders locations),
                     spec_longitude <$> (lon <$> orders locations),
                     orders_dict (orders locations)),
             after_projection w locations)
        end
    end.
Proof.
  unfold reformat_locations. rewrite Py_bind_eq, json_load_eq.
  destruct (files w !! locations_path) as [content|]; [|reflexivity].
  rewrite Py_bind_eq, RouteInput_new_eq.
  destruct content as [raw|]; [|reflexivity].
  destruct (RouteInput_validate raw) as [es|locations]; [reflexivity|].
  rewrite project_orders_run. reflexivity.
Qed.

Lemma validated_orders raw locations :
  RouteInput_validate raw = Return locations →
  NoDup (order_id <$> orders locations) ∧
  Forall (λ o, within (-90) 90 (lat o) ∧ within (-180) 180 (lon o)) (orders locations).
Proof.
  intros (_ & _ & (ros & _ & Hov))%RouteInput_validate_Return.
  apply orders_validate_Return in Hov as [Hall Hnd]. split; [assumption|].
  clear Hnd. induction Hall as [|x o l k Hxo _ IH]; constructor; [|assumption].
  apply OrderInput_validate_Return in Hxo. tauto.
Qed.

Lemma violation_rejected raw :
  violates_a_constraint raw → ∃ es, RouteInput_validate raw = Raise es.
Proof.
  intros (ros & Hros & [Hdup|(r & x & Hin & Hout)]).
  - by apply (RouteInput_rejects_duplicates raw ros).
  - apply (RouteInput_rejects_bad_order raw ros r Hros Hin). intros o Ho.
    destruct Hout as [[Hx Hbad]|[Hx Hbad]].
    + destruct (OrderInput_rejects_lat r x Hx Hbad) as (es & Hes & _). congruence.
    + destruct (OrderInput_rejects_lon r x Hx Hbad) as (es & Hes & _). congruence.
Qed.

(** C4. [reformat] validates before it projects. On an input whose records
    break a constraint it raises and leaves the world as it was: no list
    was made and the history of calls to the projection is the one from
    before; the exception is the validation error of the [RouteInput]
    constructor (when the routes file is missing, [open] has raised before
    the constructor is reached).  And in every run, each call it makes to
    the projection is on latitudes in [-90, 90] and longitudes in
    [-180, 180]. *)
Theorem reformat_validates_before_projecting (locations_path routes_path : string) w :
  (∀ raw,
     files w !! locations_path = Some (JObject raw) →
     violates_a_constraint raw →
     ∃ e, reformat locations_path routes_path w = (Raise e, w) ∧
          ∀ routes, files w !! routes_path = Some routes →
            ∃ es, RouteInput_validate raw = Raise es ∧ e = ValidationError es) ∧
  (∃ calls,
     erp_calls (snd (reformat locations_path routes_path w)) = calls ++ erp_calls w ∧
     ∀ lats longs, (lats, longs) ∈ calls →
       Forall (within (-90) 90) lats ∧ Forall (within (-180) 180) longs).
Proof.
  split.
  - intros raw Hl [es Hes]%violation_rejected. rewrite reformat_run, Hl, Hes.
    destruct (files w !! routes_path) as [routes|].
    + exists (ValidationError es). split; [reflexivity|]. intros _ _. eauto.
    + exists (FileNotFoundError routes_path). split; [reflexivity|]. discriminate.
  - rewrite reformat_run.
    destruct (files w !! locations_path) as [[raw|]|];
      [|destruct (files w !! routes_path)|]; try (exists []; split; [done|set_solver]).
    destruct (files w !! routes_path) as [routes|];
      [|exists []; split; [done|set_solver]].
    destruct (RouteInput_validate raw) as [es|locations] eqn:Hv;
      [exists []; split; [done|set_solver]|].
    exists [(lat <$> orders locations, lon <$> orders locations)]. split; [done|].
    intros lats longs [= -> ->]%list_elem_of_singleton.
    apply validated_orders in Hv as [_ Hall].
    rewrite !Forall_fmap. split; eapply Forall_impl; try exact Hall; simpl; tauto.
Qed.

(** *** The dictionary of orders *)

Lemma orders_dict_snoc (os : list (OrderInput (num := num))) o :
  orders_dict (os ++ [o])
  = <[order_id o := {["lat" := lat o; "lon" := lon o]}]> (orders_dict os).
Proof. unfold orders_dict. by rewrite foldl_snoc. Qed.

Lemma orders_dict_dom (os : list (OrderInput (num := num))) (k : Z) :
  k ∈ dom (orders_dict os) ↔ k ∈ order_id <$> os.
Proof.
  induction os as [|o os IH] using rev_ind.
  - unfold orders_dict; simpl. set_solver.
  - rewrite orders_dict_snoc, dom_insert, fmap_app; simpl. set_solver.
Qed.

Lemma orders_dict_NoDup (os : list (OrderInput (num := num))) :
  NoDup (order_id <$> os) →
  size (orders_dict os) = length os ∧
  ∀ o, o ∈ os →
    orders_dict os !! order_id o = Some {["lat" := lat o; "lon" := lon o]}.
Proof.
  induction os as [|x os IH] using rev_ind; intros Hnd.
  - split; [reflexivity|]. intros o Ho. inversion Ho.
  - rewrite fmap_app in Hnd. apply NoDup_app in Hnd as (Hnd & Hfresh & _).
    destruct (IH Hnd) as [Hsize Hlook].
    assert (order_id x ∉ order_id <$> os) as Hx.
    { intros Hin. apply (Hfresh _ Hin). simpl. set_solver. }
    rewrite orders_dict_snoc. split.
    + rewrite map_size_insert_None, Hsize, length_app; simpl; [lia|].
      apply not_elem_of_dom. by rewrite orders_dict_dom.
    + intros o [Ho| ->%list_elem_of_singleton]%elem_of_app.
      * rewrite lookup_insert_ne; [by apply Hlook|].
        intros Heq. apply Hx. rewrite Heq. by apply list_elem_of_fmap_2.
      * apply lookup_insert_eq.
Qed.

(** C10. On an input that passes validation, [reformat] and
    [reformat_locations] return one dictionary of orders; it has as many
    entries as there are orders, its keys are their [order_id]s, and the
    entry of an order's [order_id] holds that order's [lat] and [lon]. *)
Theorem orders_dict_one_entry_per_order (locations_path routes_path : string) w
    raw routes locations :
  files w !! locations_path = Some (JObject raw) →
  files w !! routes_path = Some routes →
  RouteInput_validate raw = Return locations →
  ∃ lats longs (d : gmap Z (gmap string num)) w',
    reformat locations_path routes_path w = (Return (lats, longs, d, routes), w') ∧
    reformat_locations locations_path w = (Return (lats, longs, d), w') ∧
    size d = length (orders locations) ∧
    (∀ k, k ∈ dom d ↔ ∃ o, o ∈ orders locations ∧ order_id o = k) ∧
    (∀ o, o ∈ orders locations →
       ∃ entry, d !! order_id o = Some entry ∧
                entry = {["lat" := lat o; "lon" := lon o]} ∧
                entry !! "lat" = Some (lat o) ∧ entry !! "lon" = Some (lon o)).
Proof.
  intros Hl Hr Hv. rewrite reformat_run, reformat_locations_run, Hl, Hr, Hv.
  eexists _, _, _, _. split; [reflexivity|]. split; [reflexivity|].
  apply validated_orders in Hv as [Hnd _].
  destruct (orders_dict_NoDup _ Hnd) as [Hsize Hlook].
  split; [assumption|]. split.
  - intros k. rewrite orders_dict_dom, list_elem_of_fmap. naive_solver.
  - intros o Ho. eexists. split; [by apply Hlook|]. split; [reflexivity|].
    split; [apply lookup_insert_eq|].
    rewrite lookup_insert_ne by done. apply lookup_singleton_eq.
Qed.

End Drivers.

(** The theorems above, on the files of [Examples.data]. *)

Lemma Repeated_violates : violates_a_constraint Repeated.
Proof.
  exists [order_16; order_17; order_16_again]. split; [reflexivity|]. left.
  exists 0, 2, order_16, order_16_again, 16%Z. split_and!; done.
Qed.

Lemma reformat_validates_before_projecting_witness :
  (∃ e, reformat "data/Repeated.json" "data/Locations_route.json" data = (Raise e, data) ∧
        ∀ routes, files data !! "data/Locations_route.json" = Some routes →
          ∃ es, RouteInput_validate Repeated = Raise es ∧ e = ValidationError es) ∧
  (∃ calls,
     erp_calls (snd (reformat "data/Locations.json" "data/Locations_route.json" data))
     = calls ++ erp_calls data ∧
     ∀ lats longs, (lats, longs) ∈ calls →
       Forall (within (-90) 90) lats ∧ Forall (within (-180) 180) longs).
Proof.
  split.
  - apply (proj1 (reformat_validates_before_projecting
                    "data/Repeated.json" "data/Locations_route.json" data)
             Repeated); [reflexivity|apply Repeated_violates].
  - apply (proj2 (reformat_validates_before_projecting
                    "data/Locations.json" "data/Locations_route.json" data)).
Defined.

Lemma orders_dict_one_entry_per_order_witness :
  ∃ lats longs (d : gmap Z (gmap string float)) w',
    reformat "data/Locations.json" "data/Locations_route.json" data
    = (Return (lats, longs, d, JArray [[16; 17; 16]%Z]), w') ∧
    reformat_locations "data/Locations.json" data = (Return (lats, longs, d), w') ∧
    size d = length (orders Locations_parsed) ∧
    (∀ k, k ∈ dom d ↔ ∃ o, o ∈ orders Locations_parsed ∧ order_id o = k) ∧
    (∀ o, o ∈ orders Locations_parsed →
       ∃ entry, d !! order_id o = Some entry ∧
                entry = {["lat" := lat o; "lon" := lon o]} ∧
                entry !! "lat" = Some (lat o) ∧ entry !! "lon" = Some (lon o)).
Proof.
  apply (orders_dict_one_entry_per_order
           "data/Locations.json" "data/Locations_route.json" data
           Locations (JArray [[16; 17; 16]%Z]) Locations_parsed); reflexivity.
Defined.

(** The example of the docstrings: order 16 at (-31.899364, 115.801288). *)
Example reformat_Locations_orders :
  ∃ lats longs d w',
    reformat "data/Locations.json" "data/Locations_route.json" data
    = (Return (lats, longs, d, JArray [[16; 17; 16]%Z]), w') ∧
    d !! 16%Z = Some {["lat" := (-31.899364)%float; "lon" := 115.801288%float]} ∧
    erp_calls w' = [([-31.899364; -31.95]%float, [115.801288; 115.86]%float)].
Proof.
  rewrite reformat_run. eexists _, _, _, _. split; [reflexivity|].
  split; reflexivity.
Qed.

End DriverFacts.

(** * More of [pydantic_models.py] *)

Module ValidationFacts.
Import Pydantic Examples PydanticFacts.

Section Models.
Context {num : Type} {AR : Arith num}.

Lemma ClusterConfig_validate_Return (raw : RawClusterConfig) (c : ClusterConfig) :
  ClusterConfig_validate raw = Return c ↔ raw = Encode.cluster_input c.
Proof.
  unfold ClusterConfig_validate, Encode.cluster_input.
  destruct raw as [[t|] extra], c as [t' extra']; simpl; split;
    intros [= ]; subst; reflexivity.
Qed.

Lemma SolverConfig_validate_encoded (raw : RawSolverConfig) (c : SolverConfig) :
  SolverConfig_validate raw = Return c ↔
  raw = Encode.solver_input c ∧ (1 ≤ max_solve_size c)%Z.
Proof.
  rewrite SolverConfig_validate_Return. unfold Encode.solver_input.
  destruct raw as [t d m]; simpl. split.
  - intros (-> & -> & -> & ?). by split_and!.
  - intros ([= -> -> ->] & ?). by split_and!.
Qed.

Lemma OrderInput_validate_encoded (raw : RawOrder (num := num)) (o : OrderInput) :
  OrderInput_validate raw = Return o ↔
  raw = Encode.order_input o ∧
  (0 ≤ order_id o)%Z ∧ within (-90) 90 (lat o) ∧ within (-180) 180 (lon o).
Proof.
  rewrite OrderInput_validate_Return. unfold Encode.order_input.
  destruct raw as [i la lo]; simpl. split.
  - intros (-> & ? & -> & ? & -> & ?). by split_and!.
  - intros ([= -> -> ->] & ? & ? & ?). by split_and!.
Qed.

Lemma orders_validated_encoded (ros : list (RawOrder (num := num)))
    (v : list (OrderInput (num := num))) :
  Forall2 (λ x y, OrderInput_validate x = Return y) ros v ↔
  ros = Encode.order_input <$> v ∧
  Forall (λ o, (0 ≤ order_id o)%Z ∧ within (-90) 90 (lat o) ∧
               within (-180) 180 (lon o)) v.
Proof.
  split.
  - induction 1 as [|x o l k Hxo _ [-> IH]]; [by split|].
    apply OrderInput_validate_encoded in Hxo as [-> Hok].
    split; [reflexivity|by constructor].
  - intros [-> Hall]. induction Hall as [|o k Hok _ IH]; constructor; [|assumption].
    by apply OrderInput_validate_encoded.
Qed.

(** Over inputs that hold values of the declared types, a [RouteInput] is
    made from the input that holds its own values, and from no other. *)
Lemma RouteInput_validate_encoded (raw : RawRouteInput (num := num))
    (r : RouteInput (num := num)) :
  RouteInput_validate raw = Return r ↔
  raw = Encode.route_input r ∧ Encode.well_formed r.
Proof.
  rewrite RouteInput_validate_Return. unfold Encode.route_input, Encode.well_formed.
  split.
  - intros ((rc & Hrc & Hc) & (rs & Hrs & Hs) & (ros & Hros & Hov)).
    apply ClusterConfig_validate_Return in Hc as ->.
    apply SolverConfig_validate_encoded in Hs as [-> ?].
    apply orders_validate_Return in Hov as [[-> ?]%orders_validated_encoded ?].
    destruct raw; simpl in *; subst. by split_and!.
  - intros (-> & ? & ? & ?); simpl. split_and!.
    + eexists. split; [reflexivity|]. by apply ClusterConfig_validate_Return.
    + eexists. split; [reflexivity|]. by apply SolverConfig_validate_encoded.
    + eexists. split; [reflexivity|]. apply orders_validate_Return.
      split; [|assumption]. by apply orders_validated_encoded.
Qed.

(** X1. Validation changes nothing in an input that already holds what the
    models declare: a [RouteInput] within the bounds and with pairwise
    distinct [order_id]s is what validation returns on the input that
    holds its values; and what validation returns is within the bounds, has
    pairwise distinct [order_id]s, and is returned again when it is
    validated again. *)
Theorem RouteInput_validate_round_trip (r : RouteInput (num := num)) :
  (Encode.well_formed r → RouteInput_validate (Encode.route_input r) = Return r) ∧
  (∀ raw : RawRouteInput (num := num),
     RouteInput_validate raw = Return r →
     Encode.well_formed r ∧ RouteInput_validate (Encode.route_input r) = Return r).
Proof.
  split.
  - intros Hr. by apply RouteInput_validate_encoded.
  - intros raw [_ Hr]%RouteInput_validate_encoded.
    split; [assumption|]. by apply RouteInput_validate_encoded.
Qed.

(** X2. Every field the models declare is required: an input that lacks
    one is refused with a [missing] error at that key, whatever its other
    fields hold ([max_solve_size] too, whose [Field] names a bound and no
    default). *)
Theorem every_field_is_required :
  (∀ raw : RawOrder (num := num), raw_order_id raw = None →
     ∃ es, OrderInput_validate raw = Raise es ∧ mkError [Key "order_id"] missing ∈ es) ∧
  (∀ raw : RawOrder (num := num), raw_lat raw = None →
     ∃ es, OrderInput_validate raw = Raise es ∧ mkError [Key "lat"] missing ∈ es) ∧
  (∀ raw : RawOrder (num := num), raw_lon raw = None →
     ∃ es, OrderInput_validate raw = Raise es ∧ mkError [Key "lon"] missing ∈ es) ∧
  (∀ raw, raw_cluster_type raw = None →
     ∃ es, ClusterConfig_validate raw = Raise es ∧ mkError [Key "type"] missing ∈ es) ∧
  (∀ raw, raw_solver_type raw = None →
     ∃ es, SolverConfig_validate raw = Raise es ∧ mkError [Key "type"] missing ∈ es) ∧
  (∀ raw, raw_distance raw = None →
     ∃ es, SolverConfig_validate raw = Raise es ∧ mkError [Key "distance"] missing ∈ es) ∧
  (∀ raw, raw_max_solve_size raw = None →
     ∃ es, SolverConfig_validate raw = Raise es ∧
           mkError [Key "max_solve_size"] missing ∈ es) ∧
  (∀ raw : RawRouteInput (num := num), raw_vehicle_cluster_config raw = None →
     ∃ es, RouteInput_validate raw = Raise es ∧
           mkError [Key "vehicle_cluster_config"] missing ∈ es) ∧
  (∀ raw : RawRouteInput (num := num), raw_solver_config raw = None →
     ∃ es, RouteInput_validate raw = Raise es ∧
           mkError [Key "solver_config"] missing ∈ es) ∧
  (∀ raw : RawRouteInput (num := num), raw_orders raw = None →
     ∃ es, RouteInput_validate raw = Raise es ∧ mkError [Key "orders"] missing ∈ es).
Proof.
  split_and!.
  - intros raw H. apply OrderInput_validate_Raise. rewrite H. simpl. set_solver.
  - intros raw H. apply OrderInput_validate_Raise. rewrite H. simpl. set_solver.
  - intros raw H. apply OrderInput_validate_Raise. rewrite H. simpl. set_solver.
  - intros raw H. unfold ClusterConfig_validate. rewrite H. simpl.
    eexists. split; [reflexivity|set_solver].
  - intros raw H. unfold SolverConfig_validate. rewrite H.
    destruct (field "distance" _ _), (field "max_solve_size" _ _); simpl;
      (eexists; split; [reflexivity|set_solver]).
  - intros raw H. unfold SolverConfig_validate. rewrite H.
    destruct (field "type" _ _), (field "max_solve_size" _ _); simpl;
      (eexists; split; [reflexivity|set_solver]).
  - intros raw H. unfold SolverConfig_validate. rewrite H.
    destruct (field "type" _ _), (field "distance" _ _); simpl;
      (eexists; split; [reflexivity|set_solver]).
  - intros raw H. unfold RouteInput_validate. rewrite H.
    destruct (field "solver_config" _ _), (field "orders" _ _); simpl;
      (eexists; split; [reflexivity|set_solver]).
  - intros raw H. unfold RouteInput_validate. rewrite H.
    destruct (field "vehicle_cluster_config" _ _), (field "orders" _ _); simpl;
      (eexists; split; [reflexivity|set_solver]).
  - intros raw H. unfold RouteInput_validate. rewrite H.
    destruct (field "vehicle_cluster_config" _ _), (field "solver_config" _ _); simpl;
      (eexists; split; [reflexivity|set_solver]).
Qed.

(** X3. Whether [orders_unique] accepts a list does not depend on the order
    of its items: it returns on a list exactly when it returns on each of
    its permutations (and then each time the list it was given). *)
Theorem orders_unique_any_order (v v' : list (OrderInput (num := num))) :
  v ≡ₚ v' →
  (orders_unique v = Return v ↔ orders_unique v' = Return v') ∧
  (orders_unique v = Raise (mkValueError "order_id must be unique") ↔
   orders_unique v' = Raise (mkValueError "order_id must be unique")).
Proof.
  intros Hperm.
  assert (NoDup (order_id <$> v) ↔ NoDup (order_id <$> v')) as Hiff
    by (by rewrite Hperm).
  destruct (decide (NoDup (order_id <$> v))) as [Hnd|Hdup].
  - rewrite (orders_unique_NoDup v Hnd), (orders_unique_NoDup v' (proj1 Hiff Hnd)).
    split; split; done.
  - assert (¬ NoDup (order_id <$> v')) as Hdup' by tauto.
    rewrite (orders_unique_dup v Hdup), (orders_unique_dup v' Hdup').
    split; split; done.
Qed.

End Models.

Lemma Locations_parsed_well_formed : Encode.well_formed Locations_parsed.
Proof.
  split; [done|]. split.
  - repeat (constructor;
              [split_and!; [done|split; reflexivity|split; reflexivity]|]).
    constructor.
  - simpl. repeat (apply NoDup_cons; split; [set_solver|]). apply NoDup_nil. done.
Qed.

Lemma RouteInput_validate_round_trip_witness :
  RouteInput_validate (Encode.route_input Locations_parsed) = Return Locations_parsed ∧
  Encode.well_formed Locations_parsed ∧
  RouteInput_validate (Encode.route_input Locations_parsed) = Return Locations_parsed.
Proof.
  split.
  - apply (proj1 (RouteInput_validate_round_trip Locations_parsed)).
    apply Locations_parsed_well_formed.
  - apply (proj2 (RouteInput_validate_round_trip Locations_parsed) Locations).
    reflexivity.
Defined.

Lemma orders_unique_any_order_witness :
  (orders_unique [parsed order_16; parsed order_17]
     = Return [parsed order_16; parsed order_17] ↔
   orders_unique [parsed order_17; parsed order_16]
     = Return [parsed order_17; parsed order_16]) ∧
  (orders_unique [parsed order_16; parsed order_17]
     = Raise (mkValueError "order_id must be unique") ↔
   orders_unique [parsed order_17; parsed order_16]
     = Raise (mkValueError "order_id must be unique")).
Proof.
  apply (orders_unique_any_order [parsed order_16; parsed order_17]
           [parsed order_17; parsed order_16]).
  apply Permutation_swap.
Defined.

End ValidationFacts.

(** * [__add_lines] and [create_graph] *)

Module PlotFacts.
Import Pydantic Python Plot Examples PydanticFacts ProjectionFacts DriverFacts.

Section Scripts.
Context {num : Type} {AR : Arith num}.
Implicit Types (s : Session (num := num)) (d : gmap Z (gmap string num)).

Lemma Script_bind_eq {A B} (m : Script A) (k : A → Script B) s :
  (m ≫= k) s =
    match m s with
    | (Return a, s') => k a s'
    | (Raise e, s') => (Raise e, s')
    end.
Proof. reflexivity. Qed.

Lemma erp_equi_rect_project_run (lats longs : loc) (w : World (num := num)) :
  erp_equi_rect_project lats longs w =
    (Return (spec_latitude <$> heap w !!! lats, spec_longitude <$> heap w !!! longs),
     mkWorld (heap w) (files w) ((heap w !!! lats, heap w !!! longs) :: erp_calls w)).
Proof.
  unfold erp_equi_rect_project. rewrite Py_bind_eq. cbn beta iota.
  by rewrite equi_rect_project_run.
Qed.

(** *** Edges *)

Lemma consecutive_short (route : list Z) :
  length route ≤ 1 → consecutive route = [].
Proof. destruct route as [|? [|? ?]]; simpl; [done|done|lia]. Qed.

Lemma consecutive_drop (route : list Z) (j : nat) (start_id end_id : Z) :
  route !! j = Some start_id → route !! S j = Some end_id →
  consecutive (drop j route) = (start_id, end_id) :: consecutive (drop (S j) route).
Proof.
  intros Hj Hj'. rewrite (drop_S _ _ _ Hj), (drop_S _ _ _ Hj'). reflexivity.
Qed.

Lemma consecutive_length (route : list Z) :
  length (consecutive route) = length route - 1.
Proof.
  induction route as [|a [|b rest] IH]; [done|done|].
  change (consecutive (a :: b :: rest)) with ((a, b) :: consecutive (b :: rest)).
  cbn [length] in *. lia.
Qed.

Lemma range_len (n : nat) : range (Z.of_nat n - 1) = seq 0 (n - 1).
Proof. unfold range. f_equal. lia. Qed.

Lemma range_length (n : nat) : range (Z.of_nat n) = seq 0 n.
Proof. unfold range. by rewrite Nat2Z.id. Qed.

Lemma gather_app d (es es' : list (Z * Z)) :
  gather d (es ++ es') =
    match gather d es with
    | Raise k => Raise k
    | Return ends =>
        match gather d es' with
        | Raise k => Raise k
        | Return ends' => Return (ends ++ ends')
        end
    end.
Proof.
  induction es as [|[a b] es IH]; simpl.
  - by destruct (gather d es').
  - destruct (point d a); [done|]. destruct (point d b); [done|].
    rewrite IH. destruct (gather d es); [done|]. by destruct (gather d es').
Qed.

(** *** Four list objects at four addresses *)

Section FourLists.
Variables a1 a2 a3 a4 : loc.
Hypothesis distinct : NoDup [a1; a2; a3; a4].

Lemma addresses_differ :
  a1 ≠ a2 ∧ a1 ≠ a3 ∧ a1 ≠ a4 ∧ a2 ≠ a3 ∧ a2 ≠ a4 ∧ a3 ≠ a4.
Proof.
  apply NoDup_cons in distinct as [H1 H]. apply NoDup_cons in H as [H2 H].
  apply NoDup_cons in H as [H3 _]. set_solver.
Qed.

Lemma with_lists_lookup s (l1 l2 l3 l4 : list num) :
  let h := heap (world (with_lists s a1 a2 a3 a4 l1 l2 l3 l4)) in
  h !!! a1 = l1 ∧ h !!! a2 = l2 ∧ h !!! a3 = l3 ∧ h !!! a4 = l4.
Proof.
  destruct addresses_differ as (? & ? & ? & ? & ? & ?). simpl.
  rewrite !lookup_total_alt, !lookup_insert.
  repeat case_decide; try congruence. done.
Qed.

Ltac same_heap :=
  destruct addresses_differ as (? & ? & ? & ? & ? & ?);
  unfold list_append, with_lists; cbn [world heap files erp_calls canvas];
  do 3 f_equal; apply map_eq; intros a;
  rewrite ?lookup_total_alt, !lookup_insert;
  repeat case_decide; simpl; congruence.

Lemma list_append_1 s (l1 l2 l3 l4 : list num) v :
  list_append a1 v (with_lists s a1 a2 a3 a4 l1 l2 l3 l4)
  = (Return (), with_lists s a1 a2 a3 a4 (l1 ++ [v]) l2 l3 l4).
Proof. same_heap. Qed.

Lemma list_append_2 s (l1 l2 l3 l4 : list num) v :
  list_append a2 v (with_lists s a1 a2 a3 a4 l1 l2 l3 l4)
  = (Return (), with_lists s a1 a2 a3 a4 l1 (l2 ++ [v]) l3 l4).
Proof. same_heap. Qed.

Lemma list_append_3 s (l1 l2 l3 l4 : list num) v :
  list_append a3 v (with_lists s a1 a2 a3 a4 l1 l2 l3 l4)
  = (Return (), with_lists s a1 a2 a3 a4 l1 l2 (l3 ++ [v]) l4).
Proof. same_heap. Qed.

Lemma list_append_4 s (l1 l2 l3 l4 : list num) v :
  list_append a4 v (with_lists s a1 a2 a3 a4 l1 l2 l3 l4)
  = (Return (), with_lists s a1 a2 a3 a4 l1 l2 l3 (l4 ++ [v])).
Proof. same_heap. Qed.

Lemma store_1 d s (l1 l2 l3 l4 : list num) (k : Z) (key : string) :
  (v ← orders_getitem d k key; list_append a1 v) (with_lists s a1 a2 a3 a4 l1 l2 l3 l4)
  = match d !! k with
    | None => (Raise (KeyError (KInt k)), with_lists s a1 a2 a3 a4 l1 l2 l3 l4)
    | Some entry =>
        match entry !! key with
        | None => (Raise (KeyError (KStr key)), with_lists s a1 a2 a3 a4 l1 l2 l3 l4)
        | Some v => (Return (), with_lists s a1 a2 a3 a4 (l1 ++ [v]) l2 l3 l4)
        end
    end.
Proof.
  rewrite Script_bind_eq. unfold orders_getitem.
  destruct (d !! k) as [entry|]; [|reflexivity].
  destruct (entry !! key); [|reflexivity]. apply list_append_1.
Qed.

Lemma store_2 d s (l1 l2 l3 l4 : list num) (k : Z) (key : string) :
  (v ← orders_getitem d k key; list_append a2 v) (with_lists s a1 a2 a3 a4 l1 l2 l3 l4)
  = match d !! k with
    | None => (Raise (KeyError (KInt k)), with_lists s a1 a2 a3 a4 l1 l2 l3 l4)
    | Some entry =>
        match entry !! key with
        | None => (Raise (KeyError (KStr key)), with_lists s a1 a2 a3 a4 l1 l2 l3 l4)
        | Some v => (Return (), with_lists s a1 a2 a3 a4 l1 (l2 ++ [v]) l3 l4)
        end
    end.
Proof.
  rewrite Script_bind_eq. unfold orders_getitem.
  destruct (d !! k) as [entry|]; [|reflexivity].
  destruct (entry !! key); [|reflexivity]. apply list_append_2.
Qed.

Lemma store_3 d s (l1 l2 l3 l4 : list num) (k : Z) (key : string) :
  (v ← orders_getitem d k key; list_append a3 v) (with_lists s a1 a2 a3 a4 l1 l2 l3 l4)
  = match d !! k with
    | None => (Raise (KeyError (KInt k)), with_lists s a1 a2 a3 a4 l1 l2 l3 l4)
    | Some entry =>
        match entry !! key with
        | None => (Raise (KeyError (KStr key)), with_lists s a1 a2 a3 a4 l1 l2 l3 l4)
        | Some v => (Return (), with_lists s a1 a2 a3 a4 l1 l2 (l3 ++ [v]) l4)
        end
    end.
Proof.
  rewrite Script_bind_eq. unfold orders_getitem.
  destruct (d !! k) as [entry|]; [|reflexivity].
  destruct (entry !! key); [|reflexivity]. apply list_append_3.
Qed.

Lemma store_4 d s (l1 l2 l3 l4 : list num) (k : Z) (key : string) :
  (v ← orders_getitem d k key; list_append a4 v) (with_lists s a1 a2 a3 a4 l1 l2 l3 l4)
  = match d !! k with
    | None => (Raise (KeyError (KInt k)), with_lists s a1 a2 a3 a4 l1 l2 l3 l4)
    | Some entry =>
        match entry !! key with
        | None => (Raise (KeyError (KStr key)), with_lists s a1 a2 a3 a4 l1 l2 l3 l4)
        | Some v => (Return (), with_lists s a1 a2 a3 a4 l1 l2 l3 (l4 ++ [v]))
        end
    end.
Proof.
  rewrite Script_bind_eq. unfold orders_getitem.
  destruct (d !! k) as [entry|]; [|reflexivity].
  destruct (entry !! key); [|reflexivity]. apply list_append_4.
Qed.

(** One edge: the four lists grow by the ends of the edge, or the first
    key that is not found is raised (some lists may have grown by then). *)
Lemma edge_step_run d s (l1 l2 l3 l4 : list num) (start_id end_id : Z) :
  ∃ r l1' l2' l3' l4',
    edge_step d a1 a2 a3 a4 start_id end_id (with_lists s a1 a2 a3 a4 l1 l2 l3 l4)
    = (r, with_lists s a1 a2 a3 a4 l1' l2' l3' l4') ∧
    match point d start_id, point d end_id with
    | Raise k, _ => r = Raise (KeyError k)
    | Return _, Raise k => r = Raise (KeyError k)
    | Return p, Return q =>
        r = Return () ∧ l1' = l1 ++ [p.1] ∧ l2' = l2 ++ [p.2] ∧
        l3' = l3 ++ [q.1] ∧ l4' = l4 ++ [q.2]
    end.
Proof.
  unfold edge_step, point.
  rewrite Script_bind_eq, store_1.
  destruct (d !! start_id) as [e1|] eqn:H1; [|by eexists _, _, _, _, _].
  destruct (e1 !! "lon") as [lo1|]; [|by eexists _, _, _, _, _].
  rewrite Script_bind_eq, store_2, H1.
  destruct (e1 !! "lat") as [la1|]; [|by eexists _, _, _, _, _].
  rewrite Script_bind_eq, store_3.
  destruct (d !! end_id) as [e2|] eqn:H2; [|by eexists _, _, _, _, _].
  destruct (e2 !! "lon") as [lo2|]; [|by eexists _, _, _, _, _].
  rewrite store_4, H2.
  destruct (e2 !! "lat") as [la2|]; by eexists _, _, _, _, _.
Qed.

(** How a run over the edges [es] ends, from lists [l] to lists [l']. *)
Definition outcome d (es : list (Z * Z)) (l1 l2 l3 l4 : list num)
    (r : Result Failure unit) (l1' l2' l3' l4' : list num) : Prop :=
  match gather d es with
  | Raise k => r = Raise (KeyError k)
  | Return ends =>
      r = Return () ∧ l1' = l1 ++ start_lons ends ∧ l2' = l2 ++ start_lats ends ∧
      l3' = l3 ++ end_lons ends ∧ l4' = l4 ++ end_lats ends
  end.

Lemma outcome_nil d (l1 l2 l3 l4 : list num) :
  outcome d [] l1 l2 l3 l4 (Return ()) l1 l2 l3 l4.
Proof. unfold outcome; simpl. by rewrite !app_nil_r. Qed.

(** A run over [es], then a run over [es'] if the first returned. *)
Lemma outcome_app d es es' (l1 l2 l3 l4 m1 m2 m3 m4 n1 n2 n3 n4 : list num) r :
  outcome d es l1 l2 l3 l4 (Return ()) m1 m2 m3 m4 →
  outcome d es' m1 m2 m3 m4 r n1 n2 n3 n4 →
  outcome d (es ++ es') l1 l2 l3 l4 r n1 n2 n3 n4.
Proof.
  unfold outcome. rewrite gather_app.
  destruct (gather d es) as [k|ends]; [discriminate|].
  intros (_ & -> & -> & -> & ->).
  destruct (gather d es') as [k|ends']; [done|].
  intros (-> & -> & -> & -> & ->).
  unfold start_lons, start_lats, end_lons, end_lats.
  by rewrite !fmap_app, !app_assoc.
Qed.

Lemma outcome_app_Raise d es es' (l1 l2 l3 l4 m1 m2 m3 m4 : list num) e :
  outcome d es l1 l2 l3 l4 (Raise e) m1 m2 m3 m4 →
  outcome d (es ++ es') l1 l2 l3 l4 (Raise e) m1 m2 m3 m4.
Proof.
  unfold outcome. rewrite gather_app.
  destruct (gather d es) as [k|ends]; [done|]. by intros [? _].
Qed.

Lemma edge_body_run d (b1 b2 b3 b4 : loc) (route : list Z) (j : nat)
    (start_id end_id : Z) s :
  route !! j = Some start_id → route !! S j = Some end_id →
  edge_body d b1 b2 b3 b4 route j s = edge_step d b1 b2 b3 b4 start_id end_id s.
Proof.
  intros Hj Hj'. unfold edge_body. rewrite Script_bind_eq. unfold getitem at 1.
  rewrite Hj. unfold mret at 1, Script_ret. cbn beta iota.
  rewrite Script_bind_eq. unfold getitem. replace (j + 1) with (S j) by lia.
  rewrite Hj'. reflexivity.
Qed.

Lemma for_each_cons {A} (x : A) (l : list A) (body : A → Script unit) s :
  for_each (x :: l) body s =
    match body x s with
    | (Return _, s') => for_each l body s'
    | (Raise e, s') => (Raise e, s')
    end.
Proof. reflexivity. Qed.

(** The inner loop, from index [j] on: a run over the pairs of stops of
    the rest of the route. *)
Lemma route_loop_run d s (route : list Z) :
  ∀ (m j : nat) (l1 l2 l3 l4 : list num),
    j + m = length route - 1 →
    ∃ r l1' l2' l3' l4',
      for_each (seq j m) (edge_body d a1 a2 a3 a4 route)
        (with_lists s a1 a2 a3 a4 l1 l2 l3 l4)
      = (r, with_lists s a1 a2 a3 a4 l1' l2' l3' l4') ∧
      outcome d (consecutive (drop j route)) l1 l2 l3 l4 r l1' l2' l3' l4'.
Proof.
  induction m as [|m IH]; intros j l1 l2 l3 l4 Hlen.
  - exists (Return ()), l1, l2, l3, l4. split; [reflexivity|].
    rewrite consecutive_short; [apply outcome_nil|].
    rewrite length_drop. lia.
  - destruct (lookup_lt_is_Some_2 route j) as [start_id Hj]; [lia|].
    destruct (lookup_lt_is_Some_2 route (S j)) as [end_id Hj']; [lia|].
    rewrite (consecutive_drop _ _ _ _ Hj Hj').
    cbn [seq]. rewrite for_each_cons, (edge_body_run d a1 a2 a3 a4 route j _ _ _ Hj Hj').
    destruct (edge_step_run d s l1 l2 l3 l4 start_id end_id)
      as (r0 & m1 & m2 & m3 & m4 & -> & Hstep).
    assert (outcome d [(start_id, end_id)] l1 l2 l3 l4 r0 m1 m2 m3 m4) as Hone.
    { unfold outcome; simpl.
      destruct (point d start_id) as [k|p]; [done|].
      destruct (point d end_id) as [k|q]; done. }
    clear Hstep. destruct r0 as [e|[]].
    + eexists _, _, _, _, _. split; [reflexivity|].
      by apply (outcome_app_Raise d [(start_id, end_id)]).
    + destruct (IH (S j) m1 m2 m3 m4) as (r & n1 & n2 & n3 & n4 & -> & Hrest); [lia|].
      eexists _, _, _, _, _. split; [reflexivity|].
      by apply (outcome_app d [(start_id, end_id)] _ _ _ _ _ m1 m2 m3 m4).
Qed.

(** The two nested loops: a run over the edges of all the routes. *)
Lemma collect_edges_run d s (routes : list (list Z)) :
  ∀ l1 l2 l3 l4 : list num,
    ∃ r l1' l2' l3' l4',
      collect_edges d a1 a2 a3 a4 routes (with_lists s a1 a2 a3 a4 l1 l2 l3 l4)
      = (r, with_lists s a1 a2 a3 a4 l1' l2' l3' l4') ∧
      outcome d (edges routes) l1 l2 l3 l4 r l1' l2' l3' l4'.
Proof.
  unfold collect_edges.
  induction routes as [|route routes IH]; intros l1 l2 l3 l4.
  - exists (Return ()), l1, l2, l3, l4. split; [reflexivity|apply outcome_nil].
  - rewrite for_each_cons, range_len.
    destruct (route_loop_run d s route (length route - 1) 0 l1 l2 l3 l4)
      as (r0 & m1 & m2 & m3 & m4 & -> & Hroute); [lia|].
    rewrite drop_0 in Hroute.
    change (edges (route :: routes)) with (consecutive route ++ edges routes).
    destruct r0 as [e|[]].
    + eexists _, _, _, _, _. split; [reflexivity|]. by apply outcome_app_Raise.
    + destruct (IH m1 m2 m3 m4) as (r & n1 & n2 & n3 & n4 & -> & Hrest).
      eexists _, _, _, _, _. split; [reflexivity|].
      by apply (outcome_app d _ _ _ _ _ _ m1 m2 m3 m4).
Qed.

End FourLists.

(** *** The lists that [__add_lines] makes *)

Lemma new_addresses_fresh s :
  let '(a1, a2, a3, a4) := new_addresses s in
  NoDup [a1; a2; a3; a4] ∧
  ∀ a, a ∈ [a1; a2; a3; a4] → heap (world s) !! a = None.
Proof.
  unfold new_addresses. set (h := heap (world s)).
  set (a1 := fresh (dom h)).
  set (a2 := fresh (dom (<[a1 := []]> h))).
  set (a3 := fresh (dom (<[a2 := []]> (<[a1 := []]> h)))).
  set (a4 := fresh (dom (<[a3 := []]> (<[a2 := []]> (<[a1 := []]> h))))).
  pose proof (is_fresh (dom h)) as H1. fold a1 in H1.
  pose proof (is_fresh (dom (<[a1 := []]> h))) as H2. fold a2 in H2.
  pose proof (is_fresh (dom (<[a2 := []]> (<[a1 := []]> h)))) as H3. fold a3 in H3.
  pose proof (is_fresh (dom (<[a3 := []]> (<[a2 := []]> (<[a1 := []]> h))))) as H4.
  fold a4 in H4. rewrite !dom_insert_L in *. split.
  - repeat (apply NoDup_cons; split; [set_solver|]). apply NoDup_nil. done.
  - intros a Ha. apply not_elem_of_dom. set_solver.
Qed.

Lemma four_new_lists {B} s (k : loc → loc → loc → loc → Script B) :
  (b1 ← lift (new_list []); b2 ← lift (new_list []); b3 ← lift (new_list []);
   b4 ← lift (new_list []); k b1 b2 b3 b4) s
  = let '(a1, a2, a3, a4) := new_addresses s in
    k a1 a2 a3 a4 (with_lists s a1 a2 a3 a4 [] [] [] []).
Proof. reflexivity. Qed.

Lemma with_lists_only_new s (a1 a2 a3 a4 : loc) (l1 l2 l3 l4 : list num) :
  (∀ a, a ∈ [a1; a2; a3; a4] → heap (world s) !! a = None) →
  only_new_lists s (with_lists s a1 a2 a3 a4 l1 l2 l3 l4).
Proof.
  intros Hnew. unfold only_new_lists, with_lists; simpl. split_and!; try done.
  intros a [v Ha]. rewrite !lookup_insert.
  repeat case_decide; subst; try done;
    rewrite Hnew in Ha by set_solver; discriminate.
Qed.

(** *** The arrows *)

Lemma getitem_bind {A B} (l : list A) (i : nat) (v : A) (k : A → Script B) s :
  l !! i = Some v → (getitem l i ≫= k) s = k v s.
Proof. intros H. rewrite Script_bind_eq. unfold getitem. by rewrite H. Qed.

Lemma draw_from (ends : list ((num * num) * (num * num))) :
  ∀ (m j : nat) s,
    j + m = length ends →
    for_each (seq j m) (λ i,
      end_long ← getitem (spec_longitude <$> end_lons ends) i;
      end_lat ← getitem (spec_latitude <$> end_lats ends) i;
      start_long ← getitem (spec_longitude <$> start_lons ends) i;
      start_lat ← getitem (spec_latitude <$> start_lats ends) i;
      plt (plt_annotate "" (end_long, end_lat) (start_long, start_lat) arrowprops)) s
    = (Return (), mkSession (world s) (canvas s ++ (arrow <$> drop j ends))).
Proof.
  induction m as [|m IH]; intros j s Hlen.
  - rewrite drop_ge by lia. simpl. rewrite app_nil_r. by destruct s.
  - destruct (lookup_lt_is_Some_2 ends j) as [[[lo1 la1] [lo2 la2]] Hj]; [lia|].
    cbn [seq]. rewrite for_each_cons.
    rewrite (getitem_bind _ j (spec_longitude lo2)), (getitem_bind _ j (spec_latitude la2)),
      (getitem_bind _ j (spec_longitude lo1)), (getitem_bind _ j (spec_latitude la1)).
    2-5: unfold start_lons, start_lats, end_lons, end_lats;
         by rewrite !list_lookup_fmap, Hj.
    unfold plt at 1. rewrite IH by lia. cbn [world canvas].
    rewrite (drop_S _ _ _ Hj), <- app_assoc. reflexivity.
Qed.

Lemma draw_arrows_run (ends : list ((num * num) * (num * num))) s :
  draw_arrows (spec_latitude <$> start_lats ends) (spec_longitude <$> start_lons ends)
    (spec_latitude <$> end_lats ends) (spec_longitude <$> end_lons ends) s
  = (Return (), mkSession (world s) (canvas s ++ (arrow <$> ends))).
Proof.
  unfold draw_arrows. rewrite range_length.
  assert (length (spec_latitude <$> start_lats ends) = length ends) as ->
    by (unfold start_lats; by rewrite !length_fmap).
  rewrite (draw_from ends (length ends) 0 s) by lia. by rewrite drop_0.
Qed.

(** *** [__add_lines], from the first line to the last *)

Lemma lift_erp_run (lats longs : loc) s :
  lift (erp_equi_rect_project lats longs) s =
    (Return (spec_latitude <$> heap (world s) !!! lats,
             spec_longitude <$> heap (world s) !!! longs),
     mkSession
       (mkWorld (heap (world s)) (files (world s))
          ((heap (world s) !!! lats, heap (world s) !!! longs) :: erp_calls (world s)))
       (canvas s)).
Proof. unfold lift. by rewrite erp_equi_rect_project_run. Qed.

Lemma add_lines_run (routes : list (list Z)) d s :
  match gather d (edges routes) with
  | Raise k =>
      ∃ l1 l2 l3 l4 : list num,
        let '(a1, a2, a3, a4) := new_addresses s in
        __add_lines routes d s
        = (Raise (KeyError k), with_lists s a1 a2 a3 a4 l1 l2 l3 l4)
  | Return ends => __add_lines routes d s = (Return (), after_add_lines s ends)
  end.
Proof.
  pose proof (new_addresses_fresh s) as Hfresh. unfold after_add_lines.
  change (__add_lines routes d s) with
    (let '(a1, a2, a3, a4) := new_addresses s in
     (collect_edges d a1 a2 a3 a4 routes;;
      '(start_lats, start_longs) ← lift (erp_equi_rect_project a2 a1);
      '(end_lats, end_longs) ← lift (erp_equi_rect_project a4 a3);
      draw_arrows start_lats start_longs end_lats end_longs)
       (with_lists s a1 a2 a3 a4 [] [] [] [])).
  destruct (new_addresses s) as [[[a1 a2] a3] a4]. destruct Hfresh as [Hnd Hnew].
  rewrite Script_bind_eq.
  destruct (collect_edges_run a1 a2 a3 a4 Hnd d s routes [] [] [] [])
    as (r & l1 & l2 & l3 & l4 & -> & Hout).
  unfold outcome in Hout. destruct (gather d (edges routes)) as [k|ends].
  - subst r. by exists l1, l2, l3, l4.
  - destruct Hout as (-> & -> & -> & -> & ->). rewrite !app_nil_l.
    pose proof (with_lists_lookup a1 a2 a3 a4 Hnd s (start_lons ends) (start_lats ends)
                  (end_lons ends) (end_lats ends)) as (E1 & E2 & E3 & E4).
    rewrite Script_bind_eq, lift_erp_run, E1, E2. cbn beta iota.
    rewrite Script_bind_eq, lift_erp_run. cbn [world heap files erp_calls canvas].
    cbn [world heap] in E3, E4. rewrite E3, E4. cbn beta iota.
    rewrite draw_arrows_run. reflexivity.
Qed.

Lemma gather_Return d (es : list (Z * Z)) (ends : list ((num * num) * (num * num))) :
  gather d es = Return ends ↔ Forall2 (ends_of d) es ends.
Proof.
  revert ends. induction es as [|[a b] es IH]; intros ends; simpl.
  - split; [intros [= <-]; constructor|]. intros H. by inversion H.
  - unfold ends_of at 1.
    destruct (point d a) as [k|p] eqn:Ha.
    { split; [discriminate|]. intros H. inversion H as [|? ? ? ? [Hp _]]; subst.
      simpl in Hp. congruence. }
    destruct (point d b) as [k|q] eqn:Hb.
    { split; [discriminate|]. intros H. inversion H as [|? ? ? ? [_ Hq]]; subst.
      simpl in Hq. congruence. }
    destruct (gather d es) as [k|ends'] eqn:Hes.
    + split; [discriminate|]. intros H. inversion H as [|? ? ? l' _ Hrest]; subst.
      apply (IH l') in Hrest. discriminate.
    + split.
      * intros [= <-]. constructor; [|by apply IH].
        unfold ends_of; simpl. by rewrite Ha, Hb.
      * intros H. inversion H as [|? [p' q'] ? l' [Hp Hq] Hrest]; subst.
        simpl in Hp, Hq. apply (IH l') in Hrest. congruence.
Qed.

(** The first edge with a stop that is not found decides the key. *)
Lemma gather_Raise d (good rest : list (Z * Z)) (start_id end_id : Z) (k : PyKey) :
  Forall (λ edge, ∃ ends, ends_of d edge ends) good →
  point d start_id = Raise k ∨
    ((∃ p, point d start_id = Return p) ∧ point d end_id = Raise k) →
  gather d (good ++ (start_id, end_id) :: rest) = Raise k.
Proof.
  intros Hgood Hbad. rewrite gather_app.
  assert (∃ ends, gather d good = Return ends) as [ends ->].
  { induction Hgood as [|[a b] es [[p q] [Hp Hq]] _ [ends IH]]; [by eexists|].
    simpl in *. rewrite Hp, Hq, IH. by eexists. }
  simpl. destruct Hbad as [->|[[p ->] ->]]; reflexivity.
Qed.

Lemma edges_length (routes : list (list Z)) :
  length (edges routes) = sum_list ((λ route, length route - 1) <$> routes).
Proof.
  unfold edges. induction routes as [|route routes IH]; [done|].
  change ((route :: routes) ≫= consecutive)
    with (consecutive route ++ (routes ≫= consecutive)).
  rewrite length_app, consecutive_length, IH, fmap_cons. reflexivity.
Qed.

Lemma edges_short (routes : list (list Z)) :
  Forall (λ route, length route ≤ 1) routes → edges routes = [].
Proof.
  unfold edges. induction 1 as [|route routes Hroute _ IH]; [done|].
  change ((route :: routes) ≫= consecutive)
    with (consecutive route ++ (routes ≫= consecutive)).
  by rewrite (consecutive_short route Hroute).
Qed.

Lemma after_add_lines_only_new s (ends : list ((num * num) * (num * num))) :
  files (world (after_add_lines s ends)) = files (world s) ∧
  ∀ a, is_Some (heap (world s) !! a) →
       heap (world (after_add_lines s ends)) !! a = heap (world s) !! a.
Proof.
  pose proof (new_addresses_fresh s) as Hfresh. unfold after_add_lines.
  destruct (new_addresses s) as [[[a1 a2] a3] a4]. destruct Hfresh as [_ Hnew].
  split; [reflexivity|].
  apply (with_lists_only_new s a1 a2 a3 a4 (start_lons ends) (start_lats ends)
           (end_lons ends) (end_lats ends) Hnew).
Qed.

Lemma after_add_lines_canvas s (ends : list ((num * num) * (num * num))) :
  canvas (after_add_lines s ends) = canvas s ++ (arrow <$> ends) ∧
  erp_calls (world (after_add_lines s ends))
  = (end_lats ends, end_lons ends) :: (start_lats ends, start_lons ends)
    :: erp_calls (world s).
Proof. unfold after_add_lines. by destruct (new_addresses s) as [[[a1 a2] a3] a4]. Qed.

(** X10. When both stops of every edge are in the dictionary,
    [__add_lines] returns and has drawn one arrow for each pair of one stop
    and the next, route after route, from the projection of the first to
    the projection of the second: for each route as many arrows as it has
    stops, less one.  It has called the projection twice, on the starts and
    on the ends, and has touched no list object and no file that was
    there. *)
Theorem add_lines_draws_every_edge (routes : list (list Z)) d s
    (ends : list ((num * num) * (num * num))) :
  Forall2 (ends_of d) (edges routes) ends →
  ∃ s',
    __add_lines routes d s = (Return (), s') ∧
    canvas s' = canvas s ++ (arrow <$> ends) ∧
    length ends = sum_list ((λ route, length route - 1) <$> routes) ∧
    erp_calls (world s')
    = (end_lats ends, end_lons ends) :: (start_lats ends, start_lons ends)
      :: erp_calls (world s) ∧
    files (world s') = files (world s) ∧
    ∀ a, is_Some (heap (world s) !! a) → heap (world s') !! a = heap (world s) !! a.
Proof.
  intros Hends. pose proof (add_lines_run routes d s) as Hrun.
  rewrite (proj2 (gather_Return d _ _) Hends) in Hrun.
  exists (after_add_lines s ends). split; [assumption|].
  destruct (after_add_lines_canvas s ends) as [-> ->].
  destruct (after_add_lines_only_new s ends) as [-> Hheap].
  split_and!; try done.
  by rewrite <- (Forall2_length _ _ _ Hends), edges_length.
Qed.

(** X11. The first stop of an edge that is not in the dictionary makes
    [__add_lines] raise [KeyError] with that stop (or with ['lon'] or
    ['lat'] when its entry lacks one): by then it has drawn nothing and has
    not called the projection, and every list object and file that was
    there is as it was. *)
Theorem add_lines_KeyError (routes : list (list Z)) d s
    (good rest : list (Z * Z)) (start_id end_id : Z) (k : PyKey) :
  edges routes = good ++ (start_id, end_id) :: rest →
  Forall (λ edge, ∃ ends, ends_of d edge ends) good →
  point d start_id = Raise k ∨
    ((∃ p, point d start_id = Return p) ∧ point d end_id = Raise k) →
  ∃ s', __add_lines routes d s = (Raise (KeyError k), s') ∧ only_new_lists s s'.
Proof.
  intros Hedges Hgood Hbad. pose proof (add_lines_run routes d s) as Hrun.
  rewrite Hedges, (gather_Raise d good rest start_id end_id k Hgood Hbad) in Hrun.
  destruct Hrun as (l1 & l2 & l3 & l4 & Hrun).
  pose proof (new_addresses_fresh s) as Hfresh.
  destruct (new_addresses s) as [[[a1 a2] a3] a4]. destruct Hfresh as [_ Hnew].
  eexists. split; [exact Hrun|]. by apply with_lists_only_new.
Qed.

(** X12. A route with one stop or none has no edge: when no route has two
    stops [__add_lines] looks nothing up, so it returns whatever the
    dictionary holds (an unknown stop goes unnoticed), draws nothing, and
    calls the projection twice on empty lists. *)
Theorem add_lines_short_routes (routes : list (list Z)) d s :
  Forall (λ route, length route ≤ 1) routes →
  ∃ s',
    __add_lines routes d s = (Return (), s') ∧
    canvas s' = canvas s ∧
    erp_calls (world s') = ([], []) :: ([], []) :: erp_calls (world s).
Proof.
  intros Hshort. pose proof (add_lines_run routes d s) as Hrun.
  rewrite (edges_short routes Hshort) in Hrun. simpl in Hrun.
  exists (after_add_lines s []). split; [assumption|].
  destruct (after_add_lines_canvas s []) as [-> ->]. simpl.
  by rewrite app_nil_r.
Qed.

Lemma consecutive_lookup (route : list Z) :
  ∀ (i : nat) (a b : Z),
    consecutive route !! i = Some (a, b) ↔ route !! i = Some a ∧ route !! S i = Some b.
Proof.
  induction route as [|x [|y rest] IH]; intros i a b.
  - split; [discriminate|]. intros [? _]. discriminate.
  - split; [discriminate|]. intros [_ ?]. discriminate.
  - change (consecutive (x :: y :: rest)) with ((x, y) :: consecutive (y :: rest)).
    destruct i as [|i].
    + simpl. split; [by intros [= -> ->]|]. by intros [[= ->] [= ->]].
    + simpl. apply IH.
Qed.

(** X13. Along a route the arrows form a path: each arrow after the first
    starts at the point where the arrow before it ends. *)
Theorem arrows_form_a_path (route : list Z) d s s' (i : nat)
    (text text' : string) (xy xytext xy' xytext' : num * num)
    (props props' : ArrowProps) :
  __add_lines [route] d s = (Return (), s') →
  drop (length (canvas s)) (canvas s') !! i = Some (plt_annotate text xy xytext props) →
  drop (length (canvas s)) (canvas s') !! S i
    = Some (plt_annotate text' xy' xytext' props') →
  xytext' = xy.
Proof.
  intros Hret. pose proof (add_lines_run [route] d s) as Hrun.
  destruct (gather d (edges [route])) as [k|ends] eqn:Hgather.
  { destruct Hrun as (l1 & l2 & l3 & l4 & Hrun).
    destruct (new_addresses s) as [[[a1 a2] a3] a4]. congruence. }
  assert (s' = after_add_lines s ends) as -> by congruence.
  destruct (after_add_lines_canvas s ends) as [-> _].
  rewrite drop_app_length, !list_lookup_fmap.
  apply gather_Return in Hgather.
  change (edges [route]) with (consecutive route ++ []) in Hgather.
  rewrite app_nil_r in Hgather.
  destruct (ends !! i) as [[p q]|] eqn:Hi; [|discriminate].
  destruct (ends !! S i) as [[p' q']|] eqn:Hi'; [|discriminate].
  destruct (Forall2_lookup_r _ _ _ _ _ Hgather Hi) as ([a b] & Hab & _ & Hq).
  destruct (Forall2_lookup_r _ _ _ _ _ Hgather Hi') as ([a' b'] & Hab' & Hp' & _).
  apply consecutive_lookup in Hab as [_ Hb].
  apply consecutive_lookup in Hab' as [Ha' _].
  assert (a' = b) as -> by congruence. simpl in Hq, Hp'.
  assert (p' = q) as -> by congruence.
  destruct p as [? ?], q as [? ?], q' as [? ?]. simpl. by intros [= <- <- <- <-] [= <- <- <- <-].
Qed.

(** *** The dictionary that [reformat_locations] returns, read by
    [__add_lines] *)

Lemma point_orders_dict (os : list (OrderInput (num := num))) :
  NoDup (order_id <$> os) →
  (∀ o, o ∈ os → point (orders_dict os) (order_id o) = Return (lon o, lat o)) ∧
  (∀ k, k ∉ order_id <$> os → point (orders_dict os) k = Raise (KInt k)).
Proof.
  intros Hnd. destruct (orders_dict_NoDup os Hnd) as [_ Hlook]. split.
  - intros o Ho. unfold point. rewrite (Hlook o Ho).
    rewrite lookup_insert_ne by done. by rewrite lookup_singleton_eq, lookup_insert_eq.
  - intros k Hk. unfold point.
    assert (orders_dict os !! k = None) as ->; [|reflexivity].
    apply not_elem_of_dom. by rewrite orders_dict_dom.
Qed.

(** The stops of the edges of a route are stops of the route, and when the
    route has two stops or more every stop is on an edge. *)
Lemma edge_stops (route : list Z) (a b : Z) :
  (a, b) ∈ consecutive route → a ∈ route ∧ b ∈ route.
Proof.
  intros [i Hi]%list_elem_of_lookup. apply consecutive_lookup in Hi as [Ha Hb].
  split; eapply list_elem_of_lookup_2; eassumption.
Qed.

Lemma stop_on_edge (route : list Z) (k : Z) :
  2 ≤ length route → k ∈ route →
  ∃ a b, (a, b) ∈ consecutive route ∧ (a = k ∨ b = k).
Proof.
  intros Hlen [i Hi]%list_elem_of_lookup.
  pose proof (lookup_lt_Some _ _ _ Hi) as Hlt.
  destruct (decide (S i < length route)) as [Hnext|Hlast].
  - destruct (lookup_lt_is_Some_2 route (S i) Hnext) as [b Hb].
    exists k, b. split; [|by left].
    apply list_elem_of_lookup. exists i. by apply consecutive_lookup.
  - destruct i as [|i]; [lia|].
    destruct (lookup_lt_is_Some_2 route i) as [a Ha]; [lia|].
    exists a, k. split; [|by right].
    apply list_elem_of_lookup. exists i. by apply consecutive_lookup.
Qed.

(** Over the dictionary of validated orders, the edges are read in full
    when all their stops are [order_id]s, and the first stop that is not
    one is the key that is raised. *)
Lemma gather_orders_dict (os : list (OrderInput (num := num))) (es : list (Z * Z)) :
  NoDup (order_id <$> os) →
  (Forall (λ e, e.1 ∈ order_id <$> os ∧ e.2 ∈ order_id <$> os) es ∧
   ∃ ends, gather (orders_dict os) es = Return ends ∧ Forall2 (ends_in os) es ends) ∨
  (∃ k a b, gather (orders_dict os) es = Raise (KInt k) ∧
            (k ∉ order_id <$> os) ∧ (a, b) ∈ es ∧ (a = k ∨ b = k)).
Proof.
  intros Hnd. destruct (point_orders_dict os Hnd) as [Hin Hout].
  induction es as [|[a b] es IH].
  - left. split; [constructor|]. exists []. split; [reflexivity|constructor].
  - simpl. destruct (decide (a ∈ order_id <$> os)) as [Ha|Ha].
    2:{ right. exists a, a, b. rewrite (Hout a Ha). split_and!; [done|done|set_solver|by left]. }
    destruct (decide (b ∈ order_id <$> os)) as [Hb|Hb].
    2:{ right. exists b, a, b. apply list_elem_of_fmap in Ha as (o1 & -> & Ho1).
        rewrite (Hin o1 Ho1), (Hout b Hb). split_and!; [done|done|set_solver|by right]. }
    pose proof Ha as Ha'. pose proof Hb as Hb'.
    apply list_elem_of_fmap in Ha' as (o1 & -> & Ho1).
    apply list_elem_of_fmap in Hb' as (o2 & -> & Ho2).
    rewrite (Hin o1 Ho1), (Hin o2 Ho2).
    destruct IH as [[Hall (ends & -> & Hends)]|(k & a' & b' & -> & Hk & Hedge & Hor)].
    + left. split; [by constructor|]. eexists. split; [reflexivity|].
      constructor; [|assumption]. by exists o1, o2.
    + right. exists k, a', b'. split_and!; [done|done|set_solver|done].
Qed.

(** *** [create_graph] *)

Section CreateGraph.
Variable os_path_join : string → list string → string.
Variable savefig_refused : string → bool.

Lemma create_graph_run (locations_file : string) (route : list Z)
    (folder_name file_name : string) s :
  create_graph os_path_join savefig_refused locations_file route folder_name file_name s
  = match reformat_locations (os_path_join "data" [locations_file]) (world s) with
    | (Raise e, w') => (Raise (FromPy e), mkSession w' (canvas s))
    | (Return (lats, longs, orders), w') =>
        match
          __add_lines [route] orders
            (mkSession w'
               ((canvas s ++ [plt_figure (10, 6)%Z])
                ++ [plt_scatter longs lats "blue" "o"]))
        with
        | (Raise e, s2) => (Raise e, s2)
        | (Return _, s2) =>
            let drawn :=
              canvas s2
              ++ [plt_title "Equirectangular Projection Scatter Plot";
                  plt_xlabel "Longitude (km)"; plt_ylabel "Latitude (km)";
                  plt_grid true] in
            let fname := os_path_join "data" [folder_name; file_name +:+ ".png"] in
            if savefig_refused fname
            then (Raise (OSError fname), mkSession (world s2) drawn)
            else (Return (),
                  mkSession (world s2)
                    (drawn ++ [plt_savefig fname 300 "tight";
                               plt_close (length (canvas s))]))
        end
    end.
Proof.
  unfold create_graph. rewrite Script_bind_eq. unfold lift.
  destruct (reformat_locations _ _) as [[e|[[lats longs] orders]] w']; [reflexivity|].
  cbn beta iota. rewrite !Script_bind_eq. unfold plt_figure_new at 1.
  cbn beta iota. rewrite !Script_bind_eq. unfold plt at 1. cbn beta iota.
  cbn [world canvas]. rewrite Script_bind_eq.
  destruct (__add_lines _ _ _) as [[e|[]] s2]; [reflexivity|].
  cbn beta iota zeta. unfold plt_savefig_to.
  destruct (savefig_refused _); unfold mbind, Script_bind, plt, fail; simpl;
    rewrite <- ?app_assoc; reflexivity.
Qed.

Lemma reformat_locations_outcome (locations_path : string) (w : World (num := num)) :
  (∃ e, reformat_locations locations_path w = (Raise e, w)) ∨
  (∃ raw locations,
     files w !! locations_path = Some (JObject raw) ∧
     RouteInput_validate raw = Return locations ∧
     reformat_locations locations_path w
     = (Return (spec_latitude <$> (lat <$> orders locations),
                spec_longitude <$> (lon <$> orders locations),
                orders_dict (orders locations)),
        after_projection w locations)).
Proof.
  rewrite reformat_locations_run.
  destruct (files w !! locations_path) as [[raw|]|]; [|left; by eexists..].
  destruct (RouteInput_validate raw) as [es|locations] eqn:Hv; [left; by eexists|].
  right. by exists raw, locations.
Qed.

(** X14. [create_graph] draws nothing on data it cannot use: when the
    locations cannot be read or are refused ([reformat_locations] raises),
    it raises the same exception and the session is as it was, with no
    figure made. *)
Theorem create_graph_draws_nothing_on_bad_data (locations_file : string)
    (route : list Z) (folder_name file_name : string) s (e : Exception) :
  fst (reformat_locations (os_path_join "data" [locations_file]) (world s)) = Raise e →
  create_graph os_path_join savefig_refused locations_file route folder_name file_name s
  = (Raise (FromPy e), s).
Proof.
  intros Hraise. rewrite create_graph_run.
  destruct (reformat_locations_outcome (os_path_join "data" [locations_file]) (world s))
    as [[e' Hrun]|(raw & locations & _ & _ & Hrun)];
    rewrite Hrun in *; simpl in Hraise; [|discriminate].
  injection Hraise as ->. by destruct s.
Qed.

Lemma create_graph_valid (locations_file : string) (route : list Z)
    (folder_name file_name : string) s raw (locations : RouteInput (num := num)) :
  files (world s) !! os_path_join "data" [locations_file] = Some (JObject raw) →
  RouteInput_validate raw = Return locations →
  create_graph os_path_join savefig_refused locations_file route folder_name file_name s
  = match
      __add_lines [route] (orders_dict (orders locations)) (with_scatter s locations)
    with
    | (Raise e, s2) => (Raise e, s2)
    | (Return _, s2) =>
        let fname := os_path_join "data" [folder_name; file_name +:+ ".png"] in
        if savefig_refused fname
        then (Raise (OSError fname), mkSession (world s2) (canvas s2 ++ labels))
        else (Return (),
              mkSession (world s2)
                ((canvas s2 ++ labels)
                 ++ [plt_savefig fname 300 "tight"; plt_close (length (canvas s))]))
    end.
Proof.
  intros Hfile Hvalid. rewrite create_graph_run, reformat_locations_run, Hfile, Hvalid.
  unfold with_scatter. rewrite <- app_assoc. reflexivity.
Qed.

(** X15. A route of two stops or more with a stop that is no [order_id]
    of the locations makes [create_graph] raise [KeyError] with such a
    stop.  By then the figure is made and the orders are scattered on it,
    and that is all: no arrow, no label, nothing saved, and the figure is
    not closed. *)
Theorem create_graph_unknown_stop (locations_file : string) (route : list Z)
    (folder_name file_name : string) s raw (locations : RouteInput (num := num))
    (stop : Z) :
  files (world s) !! os_path_join "data" [locations_file] = Some (JObject raw) →
  RouteInput_validate raw = Return locations →
  2 ≤ length route →
  stop ∈ route →
  stop ∉ order_id <$> orders locations →
  ∃ (k : Z) s',
    create_graph os_path_join savefig_refused locations_file route folder_name file_name s
    = (Raise (KeyError (KInt k)), s') ∧
    k ∈ route ∧ (k ∉ order_id <$> orders locations) ∧
    canvas s' = canvas (with_scatter s locations).
Proof.
  intros Hfile Hvalid Hlen Hstop Hunknown.
  rewrite (create_graph_valid _ _ _ _ _ _ _ Hfile Hvalid).
  destruct (validated_orders _ _ Hvalid) as [Hnd _].
  pose proof (add_lines_run [route] (orders_dict (orders locations))
                (with_scatter s locations)) as Hrun.
  change (edges [route]) with (consecutive route ++ []) in Hrun.
  rewrite app_nil_r in Hrun.
  destruct (gather_orders_dict (orders locations) (consecutive route) Hnd)
    as [[Hall _]|(k & a & b & Hgather & Hk & Hedge & Hor)].
  - destruct (stop_on_edge route stop Hlen Hstop) as (a & b & Hedge & Hor).
    rewrite Forall_forall in Hall. destruct (Hall _ Hedge) as [Ha Hb]. simpl in *.
    destruct Hor as [->| ->]; contradiction.
  - rewrite Hgather in Hrun. destruct Hrun as (l1 & l2 & l3 & l4 & Hrun).
    destruct (new_addresses (with_scatter s locations)) as [[[a1 a2] a3] a4].
    rewrite Hrun. exists k. eexists. split; [reflexivity|].
    split; [|by split].
    destruct (edge_stops route a b Hedge). by destruct Hor as [<-|<-].
Qed.

(** The route is short, or all its stops are [order_id]s: [create_graph]
    gets past [__add_lines], and what comes next is up to [savefig]. *)
Lemma create_graph_known_stops (locations_file : string) (route : list Z)
    (folder_name file_name : string) s raw (locations : RouteInput (num := num)) :
  files (world s) !! os_path_join "data" [locations_file] = Some (JObject raw) →
  RouteInput_validate raw = Return locations →
  (2 ≤ length route → ∀ k, k ∈ route → k ∈ order_id <$> orders locations) →
  ∃ ends,
    Forall2 (ends_in (orders locations)) (consecutive route) ends ∧
    create_graph os_path_join savefig_refused locations_file route folder_name file_name s
    = let s2 := after_add_lines (with_scatter s locations) ends in
      let fname := os_path_join "data" [folder_name; file_name +:+ ".png"] in
      if savefig_refused fname
      then (Raise (OSError fname), mkSession (world s2) (canvas s2 ++ labels))
      else (Return (),
            mkSession (world s2)
              ((canvas s2 ++ labels)
               ++ [plt_savefig fname 300 "tight"; plt_close (length (canvas s))])).
Proof.
  intros Hfile Hvalid Hknown.
  rewrite (create_graph_valid _ _ _ _ _ _ _ Hfile Hvalid).
  destruct (validated_orders _ _ Hvalid) as [Hnd _].
  pose proof (add_lines_run [route] (orders_dict (orders locations))
                (with_scatter s locations)) as Hrun.
  change (edges [route]) with (consecutive route ++ []) in Hrun.
  rewrite app_nil_r in Hrun.
  destruct (gather_orders_dict (orders locations) (consecutive route) Hnd)
    as [[_ (ends & Hgather & Hends)]|(k & a & b & _ & Hk & Hedge & Hor)].
  - rewrite Hgather in Hrun. exists ends. split; [assumption|]. by rewrite Hrun.
  - destruct (edge_stops route a b Hedge) as [Ha Hb]. destruct Hk.
    assert (2 ≤ length route) as Hlen.
    { pose proof (consecutive_length route) as Hcl.
      apply list_elem_of_lookup in Hedge as [i Hi].
      apply lookup_lt_Some in Hi. lia. }
    destruct Hor as [<-|<-]; by apply Hknown.
Qed.

(** X16. On locations that pass validation and a route whose stops are
    [order_id]s of them (or that has fewer than two stops), when the file
    can be written [create_graph] returns, and what it asked of [plt] is,
    in this order: the figure, the scatter of the projected orders, one
    arrow for each pair of one stop and the next between the points of
    those two orders, the title, the two axis labels and the grid, the save
    under [os.path.join('data', folder_name, file_name + '.png')], and the
    closing of the figure it made. *)
Theorem create_graph_saves_the_route (locations_file : string) (route : list Z)
    (folder_name file_name : string) s raw (locations : RouteInput (num := num)) :
  files (world s) !! os_path_join "data" [locations_file] = Some (JObject raw) →
  RouteInput_validate raw = Return locations →
  (2 ≤ length route → ∀ k, k ∈ route → k ∈ order_id <$> orders locations) →
  savefig_refused (os_path_join "data" [folder_name; file_name +:+ ".png"]) = false →
  ∃ ends s',
    create_graph os_path_join savefig_refused locations_file route folder_name file_name s
    = (Return (), s') ∧
    Forall2 (ends_in (orders locations)) (consecutive route) ends ∧
    length ends = length route - 1 ∧
    canvas s'
    = canvas (with_scatter s locations) ++ (arrow <$> ends) ++ labels
      ++ [plt_savefig (os_path_join "data" [folder_name; file_name +:+ ".png"])
            300 "tight";
          plt_close (length (canvas s))].
Proof.
  intros Hfile Hvalid Hknown Hwrite.
  destruct (create_graph_known_stops _ route folder_name file_name _ _ _
              Hfile Hvalid Hknown) as (ends & Hends & ->).
  cbn zeta. rewrite Hwrite. exists ends. eexists. split; [reflexivity|].
  split; [assumption|]. split.
  - by rewrite <- (Forall2_length _ _ _ Hends), consecutive_length.
  - cbn [canvas].
    destruct (after_add_lines_canvas (with_scatter s locations) ends) as [-> _].
    by rewrite <- !app_assoc.
Qed.

(** X17. When the file cannot be written, [create_graph] raises what
    [savefig] raises, after everything is drawn: the calls end with the
    labels, so nothing is saved and the figure it made is not closed. *)
Theorem create_graph_leaves_the_figure_open (locations_file : string)
    (route : list Z) (folder_name file_name : string) s raw
    (locations : RouteInput (num := num)) :
  files (world s) !! os_path_join "data" [locations_file] = Some (JObject raw) →
  RouteInput_validate raw = Return locations →
  (2 ≤ length route → ∀ k, k ∈ route → k ∈ order_id <$> orders locations) →
  savefig_refused (os_path_join "data" [folder_name; file_name +:+ ".png"]) = true →
  ∃ ends s',
    create_graph os_path_join savefig_refused locations_file route folder_name file_name s
    = (Raise (OSError (os_path_join "data" [folder_name; file_name +:+ ".png"])), s') ∧
    canvas s' = canvas (with_scatter s locations) ++ (arrow <$> ends) ++ labels.
Proof.
  intros Hfile Hvalid Hknown Hrefused.
  destruct (create_graph_known_stops _ route folder_name file_name _ _ _
              Hfile Hvalid Hknown) as (ends & Hends & ->).
  cbn zeta. rewrite Hrefused. exists ends. eexists. split; [reflexivity|].
  cbn [canvas].
  destruct (after_add_lines_canvas (with_scatter s locations) ends) as [-> _].
  by rewrite <- !app_assoc.
Qed.

End CreateGraph.

End Scripts.

(** The theorems above, on the inputs of [PlotExamples]. *)

Import PlotExamples.

Lemma two_edges_read :
  Forall2 (ends_of orders_16_17) (edges [[16; 17; 16]%Z])
    [(at_16, at_17); (at_17, at_16)].
Proof. repeat (constructor; [split; vm_compute; reflexivity|]). constructor. Qed.

Lemma add_lines_draws_every_edge_witness :
  ∃ s',
    __add_lines [[16; 17; 16]%Z] orders_16_17 blank = (Return (), s') ∧
    canvas s' = canvas blank ++ (arrow <$> [(at_16, at_17); (at_17, at_16)]) ∧
    length [(at_16, at_17); (at_17, at_16)]
    = sum_list ((λ route, length route - 1) <$> [[16; 17; 16]%Z]) ∧
    erp_calls (world s')
    = (end_lats [(at_16, at_17); (at_17, at_16)],
       end_lons [(at_16, at_17); (at_17, at_16)])
      :: (start_lats [(at_16, at_17); (at_17, at_16)],
          start_lons [(at_16, at_17); (at_17, at_16)])
      :: erp_calls (world blank) ∧
    files (world s') = files (world blank) ∧
    ∀ a, is_Some (heap (world blank) !! a) →
         heap (world s') !! a = heap (world blank) !! a.
Proof.
  apply (add_lines_draws_every_edge [[16; 17; 16]%Z] orders_16_17 blank
           [(at_16, at_17); (at_17, at_16)]).
  apply two_edges_read.
Defined.

Lemma add_lines_KeyError_witness :
  ∃ s',
    __add_lines [[16; 17; 99; 16]%Z] orders_16_17 blank
    = (Raise (KeyError (KInt 99)), s') ∧
    only_new_lists blank s'.
Proof.
  apply (add_lines_KeyError [[16; 17; 99; 16]%Z] orders_16_17 blank
           [(16, 17)%Z] [(99, 16)%Z] 17 99 (KInt 99)).
  - reflexivity.
  - constructor; [|constructor]. exists (at_16, at_17). split; vm_compute; reflexivity.
  - right. split; [exists at_17|]; vm_compute; reflexivity.
Defined.

Lemma add_lines_short_routes_witness :
  ∃ s',
    __add_lines [[99%Z]; []] orders_16_17 blank = (Return (), s') ∧
    canvas s' = canvas blank ∧
    erp_calls (world s') = ([], []) :: ([], []) :: erp_calls (world blank).
Proof.
  apply (add_lines_short_routes [[99%Z]; []] orders_16_17 blank).
  repeat (constructor; [simpl; lia|]). constructor.
Defined.

Lemma two_edges_drawn :
  ∃ s',
    __add_lines [[16; 17; 16]%Z] orders_16_17 blank = (Return (), s') ∧
    canvas s' = canvas blank ++ (arrow <$> [(at_16, at_17); (at_17, at_16)]).
Proof.
  pose proof (add_lines_run [[16; 17; 16]%Z] orders_16_17 blank) as Hrun.
  rewrite (proj2 (gather_Return orders_16_17 _ _) two_edges_read) in Hrun.
  eexists. split; [exact Hrun|].
  by destruct (after_add_lines_canvas blank [(at_16, at_17); (at_17, at_16)]).
Qed.

Lemma arrows_form_a_path_witness :
  ∃ s' (xy xytext xy' xytext' : float * float),
    __add_lines [[16; 17; 16]%Z] orders_16_17 blank = (Return (), s') ∧
    drop (length (canvas blank)) (canvas s') !! 0
    = Some (plt_annotate "" xy xytext arrowprops) ∧
    drop (length (canvas blank)) (canvas s') !! 1
    = Some (plt_annotate "" xy' xytext' arrowprops) ∧
    xytext' = xy.
Proof.
  destruct two_edges_drawn as (s' & Hrun & Hcanvas).
  assert (drop (length (canvas blank)) (canvas s') !! 0 = Some (arrow (at_16, at_17)))
    as H0 by (by rewrite Hcanvas, drop_app_length).
  assert (drop (length (canvas blank)) (canvas s') !! 1 = Some (arrow (at_17, at_16)))
    as H1 by (by rewrite Hcanvas, drop_app_length).
  eexists s', _, _, _, _. split_and!; [exact Hrun|exact H0|exact H1|].
  exact (arrows_form_a_path [16; 17; 16]%Z orders_16_17 blank s' 0
           _ _ _ _ _ _ _ _ Hrun H0 H1).
Defined.

Lemma create_graph_draws_nothing_on_bad_data_witness :
  create_graph slash_join always_writable "Repeated.json" [16; 17]%Z "plots" "route" blank
  = (Raise (FromPy (ValidationError
                      [mkError [Key "orders"] (value_error "order_id must be unique")])),
     blank).
Proof.
  apply (create_graph_draws_nothing_on_bad_data slash_join always_writable
           "Repeated.json" [16; 17]%Z "plots" "route" blank).
  vm_compute. reflexivity.
Defined.

Lemma create_graph_unknown_stop_witness :
  ∃ (k : Z) s',
    create_graph slash_join always_writable "Locations.json" [16; 99; 17]%Z
      "plots" "route" blank
    = (Raise (KeyError (KInt k)), s') ∧
    k ∈ [16; 99; 17]%Z ∧ (k ∉ order_id <$> orders Locations_parsed) ∧
    canvas s' = canvas (with_scatter blank Locations_parsed).
Proof.
  apply (create_graph_unknown_stop slash_join always_writable "Locations.json"
           [16; 99; 17]%Z "plots" "route" blank Locations Locations_parsed 99).
  - reflexivity.
  - reflexivity.
  - simpl. lia.
  - set_solver.
  - simpl. set_solver.
Defined.

Lemma create_graph_saves_the_route_witness :
  ∃ ends s',
    create_graph slash_join always_writable "Locations.json" [16; 17; 16]%Z
      "plots" "route" blank
    = (Return (), s') ∧
    Forall2 (ends_in (orders Locations_parsed)) (consecutive [16; 17; 16]%Z) ends ∧
    length ends = 2 ∧
    canvas s'
    = canvas (with_scatter blank Locations_parsed) ++ (arrow <$> ends) ++ labels
      ++ [plt_savefig "data/plots/route.png" 300 "tight"; plt_close 0].
Proof.
  apply (create_graph_saves_the_route slash_join always_writable "Locations.json"
           [16; 17; 16]%Z "plots" "route" blank Locations Locations_parsed).
  - reflexivity.
  - reflexivity.
  - intros _ k Hk. simpl. set_solver.
  - reflexivity.
Defined.

Lemma create_graph_leaves_the_figure_open_witness :
  ∃ ends s',
    create_graph slash_join never_writable "Locations.json" [16; 17; 16]%Z
      "plots" "route" blank
    = (Raise (OSError "data/plots/route.png"), s') ∧
    canvas s' = canvas (with_scatter blank Locations_parsed) ++ (arrow <$> ends) ++ labels.
Proof.
  apply (create_graph_leaves_the_figure_open slash_join never_writable "Locations.json"
           [16; 17; 16]%Z "plots" "route" blank Locations Locations_parsed).
  - reflexivity.
  - reflexivity.
  - intros _ k Hk. simpl. set_solver.
  - reflexivity.
Defined.

End PlotFacts.

(** * More of [er_projection.py], [main.py] and [visualise_deliveries.py] *)

Module DriverMoreFacts.
Import Pydantic Python Examples PydanticFacts ProjectionFacts DriverFacts.

Section Drivers.
Context {num : Type} {AR : Arith num}.
Implicit Types (w : World (num := num)) (raw : RawRouteInput (num := num))
  (locations : RouteInput (num := num)).

(** X5. The two lists are projected apart from each other: they need not
    have one length (each array has the length of its own list), the
    projected latitudes do not depend on the longitudes and the projected
    longitudes do not depend on the latitudes. *)
Theorem equi_rect_project_lists_apart (la lo lz : loc) w
    (latitudes longitudes others : list num) :
  heap w !! la = Some latitudes → heap w !! lo = Some longitudes →
  heap w !! lz = Some others →
  ∃ ys xs ys' xs',
    fst (equi_rect_project la lo w) = Return (ys, xs) ∧
    fst (equi_rect_project la lz w) = Return (ys, xs') ∧
    fst (equi_rect_project lz lo w) = Return (ys', xs) ∧
    length ys = length latitudes ∧ length xs = length longitudes ∧
    length xs' = length others ∧ length ys' = length others.
Proof.
  intros H1 H2 H3. rewrite !equi_rect_project_run; simpl.
  rewrite (lookup_total_correct _ _ _ H1), (lookup_total_correct _ _ _ H2),
    (lookup_total_correct _ _ _ H3).
  eexists _, _, _, _. split_and!; try reflexivity; apply length_fmap.
Qed.


(** X7. [reformat_locations] is [reformat] without the routes: when the
    routes file can be read, both raise the same exception or return the
    same arrays and the same dictionary, and leave the same world. *)
Theorem reformat_locations_agrees (locations_path routes_path : string) w
    (routes : json) :
  files w !! routes_path = Some routes →
  reformat locations_path routes_path w
  = (match fst (reformat_locations locations_path w) with
     | Raise e => Raise e
     | Return (lats, longs, orders) => Return (lats, longs, orders, routes)
     end,
     snd (reformat_locations locations_path w)).
Proof.
  intros Hroutes. rewrite reformat_run, reformat_locations_run, Hroutes.
  destruct (files w !! locations_path) as [[raw|]|]; try reflexivity.
  by destruct (RouteInput_validate raw).
Qed.

(** X8. What [reformat] returns follows the file, order by order: entry
    [i] of each array is the projection of the [lat] and of the [lon] of
    record [i], and the dictionary holds that [lat] and [lon], not
    projected, under the [order_id] of the record. *)
Theorem reformat_follows_the_file (locations_path routes_path : string) w raw
    (ros : list (RawOrder (num := num))) (lats longs : list num)
    (d : gmap Z (gmap string num)) (routes : json) w' :
  files w !! locations_path = Some (JObject raw) →
  raw_orders raw = Some ros →
  reformat locations_path routes_path w = (Return (lats, longs, d, routes), w') →
  length lats = length ros ∧ length longs = length ros ∧
  ∀ (i : nat) (r : RawOrder (num := num)),
    ros !! i = Some r →
    ∃ (k : Z) (la lo : num),
      r = mkRawOrder (Some k) (Some la) (Some lo) ∧
      lats !! i = Some (spec_latitude la) ∧
      longs !! i = Some (spec_longitude lo) ∧
      d !! k = Some {["lat" := la; "lon" := lo]}.
Proof.
  intros Hfile Hros. rewrite reformat_run, Hfile.
  destruct (files w !! routes_path) as [routes'|]; [|discriminate].
  destruct (RouteInput_validate raw) as [es|locations] eqn:Hv; [discriminate|].
  intros [= <- <- <- <- <-].
  pose proof Hv as Hvalid.
  apply RouteInput_validate_Return in Hv as (_ & _ & (ros' & Hros' & Hov)).
  assert (ros' = ros) as -> by congruence.
  apply orders_validate_Return in Hov as [Hall Hnd].
  destruct (orders_dict_NoDup _ Hnd) as [_ Hlook].
  rewrite !length_fmap, (Forall2_length _ _ _ Hall). split_and!; try done.
  intros i r Hi.
  destruct (Forall2_lookup_l _ _ _ _ _ Hall Hi) as (o & Ho & Hro).
  apply OrderInput_validate_Return in Hro as (Hid & _ & Hlat & _ & Hlon & _).
  exists (order_id o), (lat o), (lon o). split_and!.
  - destruct r; simpl in *. congruence.
  - by rewrite !list_lookup_fmap, Ho.
  - by rewrite !list_lookup_fmap, Ho.
  - apply Hlook. by eapply list_elem_of_lookup_2.
Qed.

End Drivers.

Lemma equi_rect_project_lists_apart_witness :
  ∃ ys xs ys' xs' : list float,
    fst (equi_rect_project 1%positive 2%positive PlotExamples.three_lists)
      = Return (ys, xs) ∧
    fst (equi_rect_project 1%positive 3%positive PlotExamples.three_lists)
      = Return (ys, xs') ∧
    fst (equi_rect_project 3%positive 2%positive PlotExamples.three_lists)
      = Return (ys', xs) ∧
    length ys = 3 ∧ length xs = 3 ∧ length xs' = 1 ∧ length ys' = 1.
Proof.
  apply (equi_rect_project_lists_apart 1%positive 2%positive 3%positive
           PlotExamples.three_lists [5; 10; 15]%float [115.8; 116; 116.2]%float
           [1]%float); reflexivity.
Defined.

Lemma reformat_locations_agrees_witness :
  reformat "data/Locations.json" "data/Locations_route.json" data
  = (match fst (reformat_locations "data/Locations.json" data) with
     | Raise e => Raise e
     | Return (lats, longs, orders) =>
         Return (lats, longs, orders, JArray [[16; 17; 16]%Z])
     end,
     snd (reformat_locations "data/Locations.json" data)).
Proof.
  apply (reformat_locations_agrees "data/Locations.json" "data/Locations_route.json"
           data (JArray [[16; 17; 16]%Z])).
  reflexivity.
Defined.

Lemma reformat_follows_the_file_witness :
  length (spec_latitude <$> [-31.899364; -31.95]%float) = 2 ∧
  length (spec_longitude <$> [115.801288; 115.86]%float) = 2 ∧
  ∀ (i : nat) (r : RawOrder (num := float)),
    [order_16; order_17] !! i = Some r →
    ∃ (k : Z) (la lo : float),
      r = mkRawOrder (Some k) (Some la) (Some lo) ∧
      (spec_latitude <$> [-31.899364; -31.95]%float) !! i = Some (spec_latitude la) ∧
      (spec_longitude <$> [115.801288; 115.86]%float) !! i = Some (spec_longitude lo) ∧
      orders_dict (orders Locations_parsed) !! k = Some {["lat" := la; "lon" := lo]}.
Proof.
  apply (reformat_follows_the_file "data/Locations.json" "data/Locations_route.json"
           data Locations [order_16; order_17] _ _ _ (JArray [[16; 17; 16]%Z])
           (after_projection data Locations_parsed)); [reflexivity|reflexivity|].
  rewrite reformat_run. reflexivity.
Defined.

End DriverMoreFacts.
